(** * Lodestar: backfill verification, anchor state and block processing

    A shallow embedding of
    - [verifyBlocks]                  (backfill sync, block-range verification),
    - [computeAnchorCheckpoint], [restoreStateCaches], [initStateFromDb]
                                      (chain initialisation),
    - [getVoluntaryExitSignatureSet]  (signature-set extraction),
    - [processBlock]                  (block processing),
    followed by the properties established about them.

    JavaScript objects that the code mutates (the [blocks] array, the beacon
    state handed to [processBlock], the two state caches) live in explicit
    stores; a thrown exception keeps every mutation made before it. *)

From Stdlib Require Import NArith List Bool Lia.
From Stdlib.Strings Require Import Byte Ascii.
From stdpp Require Import base countable strings list gmap.

Open Scope N_scope.

(* ===================================================================== *)
(** ** Primitive SSZ values *)
(* ===================================================================== *)

#[global] Instance byte_eq_dec : EqDecision byte := Byte.byte_eq_dec.

#[global] Instance byte_countable : Countable byte :=
  inj_countable Byte.to_N Byte.of_N Byte.of_to_N.

(** A [Root] is a byte vector (32 bytes on the wire). *)
Abbreviation Root := (list byte).
Abbreviation Bytes := (list byte).
Abbreviation Slot := N.
Abbreviation Epoch := N.
Abbreviation ValidatorIndex := N.
Abbreviation loc := nat.

Definition GENESIS_SLOT : Slot := 0.
Definition ZERO_HASH : Root := repeat x00 32.

(** [ssz.Root.equals] / [config.types.Root.equals]: byte-wise equality. *)
Definition Root_equals (a b : Root) : bool := bool_decide (a = b).

(* ===================================================================== *)
(** ** Consensus data *)
(* ===================================================================== *)

Record BeaconBlockHeader := mkHeader {
  h_slot : Slot;
  h_proposerIndex : ValidatorIndex;
  h_parentRoot : Root;
  h_stateRoot : Root;
  h_bodyRoot : Root;
}.

Record VoluntaryExit := mkExit {
  ve_epoch : Epoch;
  ve_validatorIndex : ValidatorIndex;
}.

Record SignedVoluntaryExit := mkSignedExit {
  sve_message : VoluntaryExit;
  sve_signature : Bytes;
}.

(** Only the operation list that the sources read is kept in the body. *)
Record BeaconBlockBody := mkBody {
  body_voluntaryExits : list SignedVoluntaryExit;
}.

Record BeaconBlock := mkBlock {
  b_slot : Slot;
  b_proposerIndex : ValidatorIndex;
  b_parentRoot : Root;
  b_stateRoot : Root;
  b_body : BeaconBlockBody;
}.

Record SignedBeaconBlock := mkSignedBlock {
  sb_message : BeaconBlock;
  sb_signature : Bytes;
}.

Record Checkpoint := mkCheckpoint {
  cp_root : Root;
  cp_epoch : Epoch;
}.

Record BeaconState := mkState {
  st_slot : Slot;
  st_latestBlockHeader : BeaconBlockHeader;
  st_validators : list Bytes;
  st_previousJustifiedCheckpoint : Checkpoint;
  st_currentJustifiedCheckpoint : Checkpoint;
  st_finalizedCheckpoint : Checkpoint;
}.

#[global] Instance BeaconBlockHeader_eq_dec : EqDecision BeaconBlockHeader.
Proof. solve_decision. Defined.
#[global] Instance VoluntaryExit_eq_dec : EqDecision VoluntaryExit.
Proof. solve_decision. Defined.
#[global] Instance SignedVoluntaryExit_eq_dec : EqDecision SignedVoluntaryExit.
Proof. solve_decision. Defined.
#[global] Instance BeaconBlockBody_eq_dec : EqDecision BeaconBlockBody.
Proof. solve_decision. Defined.
#[global] Instance BeaconBlock_eq_dec : EqDecision BeaconBlock.
Proof. solve_decision. Defined.
#[global] Instance SignedBeaconBlock_eq_dec : EqDecision SignedBeaconBlock.
Proof. solve_decision. Defined.
#[global] Instance Checkpoint_eq_dec : EqDecision Checkpoint.
Proof. solve_decision. Defined.
#[global] Instance BeaconState_eq_dec : EqDecision BeaconState.
Proof. solve_decision. Defined.

(** Modelled from the spec: the SSZ [defaultValue()] of a container, which
    the SSZ library (not among the sources) builds; every field is zero. *)
Definition BeaconBlockBody_defaultValue : BeaconBlockBody :=
  {| body_voluntaryExits := [] |}.

Definition BeaconBlock_defaultValue : BeaconBlock :=
  {| b_slot := 0; b_proposerIndex := 0;
     b_parentRoot := ZERO_HASH; b_stateRoot := ZERO_HASH;
     b_body := BeaconBlockBody_defaultValue |}.

Definition SignedBeaconBlock_defaultValue : SignedBeaconBlock :=
  {| sb_message := BeaconBlock_defaultValue; sb_signature := repeat x00 96 |}.

(* ===================================================================== *)
(** ** Configuration: fork-dependent SSZ types and parameters *)
(* ===================================================================== *)

(** An SSZ type object, as far as the sources use one: its Merkle hash. *)
Record SszType (T : Type) := mkSszType {
  hashTreeRoot : T -> Root;
}.
Arguments hashTreeRoot {T} _ _.

(** What [config.getTypes(slot)] / [config.getForkTypes(slot)] return. *)
Record ForkTypes := mkForkTypes {
  BeaconBlockT : SszType BeaconBlock;
  BeaconBlockBodyT : SszType BeaconBlockBody;
  BeaconBlockHeaderT : SszType BeaconBlockHeader;
  BeaconStateT : SszType BeaconState;
}.

Record IBeaconParams := mkParams {
  SLOTS_PER_EPOCH : N;
  DOMAIN_VOLUNTARY_EXIT : Bytes;
}.

Record IBeaconConfig := mkConfig {
  params : IBeaconParams;
  getTypes : Slot -> ForkTypes;
  getForkTypes : Slot -> ForkTypes;
  types_phase0_VoluntaryExit : SszType VoluntaryExit;
}.

(** Modelled from the spec: [computeEpochAtSlot] and
    [computeStartSlotAtEpoch] are imported helpers; an epoch spans
    [SLOTS_PER_EPOCH] slots, so the epoch containing a slot is the quotient
    and an epoch starts at the product. *)
Definition computeEpochAtSlot (config : IBeaconConfig) (slot : Slot) : Epoch :=
  slot / SLOTS_PER_EPOCH (params config).

Definition computeStartSlotAtEpoch (config : IBeaconConfig) (epoch : Epoch) : Slot :=
  epoch * SLOTS_PER_EPOCH (params config).

(** Modelled from the spec: [blockToHeader] is an imported helper; a header
    is the compact summary of a block (slot, proposer index, parent root,
    state root, body root), the body root being the hash of the body. *)
Definition blockToHeader (config : IBeaconConfig) (block : BeaconBlock)
  : BeaconBlockHeader :=
  {| h_slot := b_slot block;
     h_proposerIndex := b_proposerIndex block;
     h_parentRoot := b_parentRoot block;
     h_stateRoot := b_stateRoot block;
     h_bodyRoot :=
       hashTreeRoot (BeaconBlockBodyT (getForkTypes config (b_slot block)))
                    (b_body block) |}.

(* ===================================================================== *)
(** ** Signature sets and cached states *)
(* ===================================================================== *)

(** [ISignatureSet]: the [type] tag selects the variant.  A public key read
    from [index2pubkey] at an index outside the array is [undefined]. *)
Inductive ISignatureSet :=
| SignatureSet_single (pubkey : option Bytes) (signingRoot : Root) (signature : Bytes)
| SignatureSet_aggregate (pubkeys : list Bytes) (signingRoot : Root) (signature : Bytes).

Record EpochContext := mkEpochCtx {
  index2pubkey : list Bytes;
}.

(** [CachedBeaconState]: the state together with its config and the derived
    epoch context. *)
Record CachedBeaconState := mkCached {
  cs_config : IBeaconConfig;
  cs_epochCtx : EpochContext;
  cs_state : BeaconState;
}.

(** [IBlsVerifier]: the batch verifier answers with one boolean. *)
Record IBlsVerifier := mkBls {
  bls_answer : list ISignatureSet -> bool;
}.

(* ===================================================================== *)
(** ** Exceptions and the state-and-exception monad *)
(* ===================================================================== *)

Inductive BackfillSyncErrorCode := NOT_ANCHORED | NOT_LINEAR | INVALID_SIGNATURE.

Inductive exn :=
| BackfillSyncError (code : BackfillSyncErrorCode)
| Error (message : string).

#[global] Instance BackfillSyncErrorCode_eq_dec : EqDecision BackfillSyncErrorCode.
Proof. solve_decision. Defined.
#[global] Instance exn_eq_dec : EqDecision exn.
Proof. solve_decision. Defined.

(** A computation over a world [W]: it ends by returning ([inr]) or by
    throwing ([inl]); in both cases the world it leaves behind is kept. *)
Definition M (W A : Type) : Type := W -> (exn + A) * W.

Definition ret {W A} (a : A) : M W A := fun w => (inr a, w).

Definition throw {W A} (e : exn) : M W A := fun w => (inl e, w).

Definition bind {W A B} (m : M W A) (k : A -> M W B) : M W B :=
  fun w =>
    match m w with
    | (inr a, w') => k a w'
    | (inl e, w') => (inl e, w')
    end.

Definition gets {W A} (f : W -> A) : M W A := fun w => (inr (f w), w).

Definition modify {W} (f : W -> W) : M W unit := fun w => (inr tt, f w).

Declare Scope js_scope.
Delimit Scope js_scope with js.
Notation "x <- c1 ;; c2" := (bind c1 (fun x => c2))
  (at level 100, c1 at next level, right associativity) : js_scope.
Notation "c1 ;; c2" := (bind c1 (fun _ => c2))
  (at level 100, right associativity) : js_scope.

(** [for (const x of xs) body]. *)
Fixpoint for_of {W A} (xs : list A) (body : A -> M W unit) : M W unit :=
  match xs with
  | [] => ret tt
  | x :: rest => (body x ;; for_of rest body)%js
  end.

(* ===================================================================== *)
(** ** Backfill verification: [verifyBlocks] *)
(* ===================================================================== *)

(** What the call does that an observer can see, in order: one entry per
    linkage comparison, per extracted proposer signature set and per call of
    the batch verifier.  The trace is ghost state; the code keeps no such
    log. *)
Inductive BackfillEvent :=
| EvLinkCheck (block : SignedBeaconBlock)
| EvProposerSignatureSet (block : SignedBeaconBlock)
| EvVerifySignatureSets (sets : list ISignatureSet).

(** The store of block arrays (an array is an object, passed by reference)
    and the trace. *)
Record BackfillWorld := mkBackfillWorld {
  bw_arrays : gmap nat (list SignedBeaconBlock);
  bw_trace : list BackfillEvent;
}.

Definition emit (ev : BackfillEvent) : M BackfillWorld unit :=
  modify (fun w => {| bw_arrays := bw_arrays w; bw_trace := bw_trace w ++ [ev] |}).

(** Reading the elements of the array behind a reference. *)
Definition array_read (a : loc) : M BackfillWorld (list SignedBeaconBlock) :=
  fun w =>
    match bw_arrays w !! a with
    | Some xs => (inr xs, w)
    | None => (inl (Error "TypeError: not an array"), w)
    end.

(** [a.reverse()]: reverses the array in place and returns the same
    reference. *)
Definition array_reverse (a : loc) : M BackfillWorld loc :=
  (xs <- array_read a ;;
   modify (fun w => {| bw_arrays := <[a := rev xs]> (bw_arrays w);
                       bw_trace := bw_trace w |}) ;;
   ret a)%js.

(** [bls.verifySignatureSets(sets)], awaited. *)
Definition verifySignatureSets (bls : IBlsVerifier) (sets : list ISignatureSet)
  : M BackfillWorld bool :=
  (emit (EvVerifySignatureSets sets) ;; ret (bls_answer bls sets))%js.

Section Backfill.

(** [allForks.getProposerSignatureSet], imported by the source. *)
Variable getProposerSignatureSet :
  CachedBeaconState -> SignedBeaconBlock -> ISignatureSet.

(** [blocks.map((block) => allForks.getProposerSignatureSet(state, block))] *)
Definition map_proposer_sets (state : CachedBeaconState) (a : loc)
  : M BackfillWorld (list ISignatureSet) :=
  (xs <- array_read a ;;
   for_of xs (fun block => emit (EvProposerSignatureSet block)) ;;
   ret (map (getProposerSignatureSet state) xs))%js.

(** The body of the loop over the blocks.  [nextRoot] is the [const]
    declared before the loop; the body never assigns to it. *)
Definition check_link (config : IBeaconConfig) (nextRoot anchorRoot : Root)
    (block : SignedBeaconBlock) : M BackfillWorld unit :=
  (emit (EvLinkCheck block) ;;
   if negb (Root_equals
              (hashTreeRoot
                 (BeaconBlockT (getForkTypes config (b_slot (sb_message block))))
                 (sb_message block))
              nextRoot)
   then
     if Root_equals nextRoot anchorRoot
     then throw (BackfillSyncError NOT_ANCHORED)
     else throw (BackfillSyncError NOT_LINEAR)
   else ret tt)%js.

Definition verifyBlocks
    (config : IBeaconConfig) (bls : IBlsVerifier) (state : CachedBeaconState)
    (blocks : loc) (anchorRoot : Root) : M BackfillWorld unit :=
  (elems <- array_read blocks ;;
   if (length elems =? 0)%nat then ret tt
   else
     let nextRoot : Root := anchorRoot in
     reversed <- array_reverse blocks ;;
     seq <- array_read reversed ;;
     for_of seq (check_link config nextRoot anchorRoot) ;;
     signatures <- map_proposer_sets state blocks ;;
     ok <- verifySignatureSets bls signatures ;;
     if negb ok then throw (BackfillSyncError INVALID_SIGNATURE)
     else ret tt)%js.

End Backfill.

(* ===================================================================== *)
(** ** Anchor checkpoint: [computeAnchorCheckpoint] *)
(* ===================================================================== *)

Definition set_b_stateRoot (r : Root) (b : BeaconBlock) : BeaconBlock :=
  {| b_slot := b_slot b; b_proposerIndex := b_proposerIndex b;
     b_parentRoot := b_parentRoot b; b_stateRoot := r; b_body := b_body b |}.

Definition set_h_stateRoot (r : Root) (h : BeaconBlockHeader) : BeaconBlockHeader :=
  {| h_slot := h_slot h; h_proposerIndex := h_proposerIndex h;
     h_parentRoot := h_parentRoot h; h_stateRoot := r; h_bodyRoot := h_bodyRoot h |}.

(** [Type.clone(x)]: a deep copy; writes to the copy do not reach [x]. *)
Definition clone {T} (x : T) : T := x.

Definition computeAnchorCheckpoint (config : IBeaconConfig) (anchorState : BeaconState)
  : Checkpoint * BeaconBlockHeader :=
  let '(blockHeader, root) :=
    if h_slot (st_latestBlockHeader anchorState) =? GENESIS_SLOT then
      let block := BeaconBlock_defaultValue in
      let block :=
        set_b_stateRoot
          (hashTreeRoot (BeaconStateT (getTypes config (st_slot anchorState))) anchorState)
          block in
      let blockHeader := blockToHeader config block in
      (blockHeader,
       hashTreeRoot (BeaconBlockHeaderT (getTypes config (st_slot anchorState))) blockHeader)
    else
      let blockHeader := clone (st_latestBlockHeader anchorState) in
      let blockHeader :=
        if Root_equals (h_stateRoot blockHeader) ZERO_HASH then
          set_h_stateRoot
            (hashTreeRoot (BeaconStateT (getTypes config (st_slot anchorState))) anchorState)
            blockHeader
        else blockHeader in
      (blockHeader,
       hashTreeRoot (BeaconBlockHeaderT (getTypes config (st_slot anchorState))) blockHeader)
  in
  ({| cp_root := root; cp_epoch := computeEpochAtSlot config (st_slot anchorState) |},
   blockHeader).

(* ===================================================================== *)
(** ** State caches: [restoreStateCaches] *)
(* ===================================================================== *)

#[global] Instance Checkpoint_countable : Countable Checkpoint :=
  inj_countable' (fun c => (cp_root c, cp_epoch c))
                 (fun p => {| cp_root := p.1; cp_epoch := p.2 |})
                 (fun c => match c with mkCheckpoint _ _ => eq_refl end).

(** The heap of [CachedBeaconState] objects and the two caches, which hold
    references into it. *)
Record CacheWorld := mkCacheWorld {
  cw_heap : gmap nat CachedBeaconState;
  cw_stateCache : gmap (list byte) nat;
  cw_checkpointStateCache : gmap Checkpoint nat;
}.

Definition alloc_cached (c : CachedBeaconState) : M CacheWorld loc :=
  fun w =>
    let l := fresh (dom (cw_heap w)) in
    (inr l, {| cw_heap := <[l := c]> (cw_heap w);
               cw_stateCache := cw_stateCache w;
               cw_checkpointStateCache := cw_checkpointStateCache w |}).

(** The key of a cached state in the root-indexed cache: its state root. *)
Definition stateRoot_of (c : CachedBeaconState) : Root :=
  hashTreeRoot (BeaconStateT (getTypes (cs_config c) (st_slot (cs_state c))))
               (cs_state c).

(** Modelled from the spec: [StateContextCache] and [CheckpointStateCache]
    are imported classes; they index cached states by state root and by
    checkpoint, and an insertion overwrites any prior entry under its key. *)
Definition stateCache_add (item : loc) : M CacheWorld unit :=
  fun w =>
    match cw_heap w !! item with
    | Some c =>
        (inr tt, {| cw_heap := cw_heap w;
                    cw_stateCache := <[stateRoot_of c := item]> (cw_stateCache w);
                    cw_checkpointStateCache := cw_checkpointStateCache w |})
    | None => (inl (Error "TypeError: not a cached state"), w)
    end.

Definition checkpointStateCache_add (cp : Checkpoint) (item : loc) : M CacheWorld unit :=
  modify (fun w => {| cw_heap := cw_heap w;
                      cw_stateCache := cw_stateCache w;
                      cw_checkpointStateCache := <[cp := item]> (cw_checkpointStateCache w) |}).

Definition stateCache_get (w : CacheWorld) (r : Root) : option CachedBeaconState :=
  l ← cw_stateCache w !! r; cw_heap w !! l.

Definition checkpointStateCache_get (w : CacheWorld) (cp : Checkpoint)
  : option CachedBeaconState :=
  l ← cw_checkpointStateCache w !! cp; cw_heap w !! l.

Section Caches.

(** The epoch context derived from a state, built inside the imported
    [createCachedBeaconState]. *)
Variable createEpochContext : IBeaconConfig -> BeaconState -> EpochContext.

(** Modelled from the spec: [createCachedBeaconState] is an imported
    helper; it wraps the raw state with derived epoch context into a new
    [CachedState] object. *)
Definition createCachedBeaconState (config : IBeaconConfig) (state : BeaconState)
  : M CacheWorld loc :=
  alloc_cached {| cs_config := config;
                  cs_epochCtx := createEpochContext config state;
                  cs_state := state |}.

Definition restoreStateCaches (config : IBeaconConfig) (state : BeaconState)
  : M CacheWorld unit :=
  (let '(checkpoint, _) := computeAnchorCheckpoint config state in
   cachedBeaconState <- createCachedBeaconState config state ;;
   stateCache_add cachedBeaconState ;;
   checkpointStateCache_add checkpoint cachedBeaconState)%js.

End Caches.

(* ===================================================================== *)
(** ** Initialisation from storage: [initStateFromDb] and friends *)
(* ===================================================================== *)

Definition hex_digit (n : N) : Ascii.ascii :=
  Ascii.ascii_of_N (if n <? 10 then 48 + n else 87 + n).

(** [toHexString]: 0x followed by two lower-case digits per byte. *)
Definition toHexString (bs : list byte) : string :=
  String "0"%char (String "x"%char
    (fold_right
       (fun b acc =>
          String (hex_digit (Byte.to_N b / 16))
                 (String (hex_digit (Byte.to_N b mod 16)) acc))
       EmptyString bs)).

(** One structured [logger.info] event. *)
Record LogRecord := mkLog {
  log_message : string;
  log_slot : Slot;
  log_epoch : Epoch;
  log_stateRoot : string;
}.

(** Modelled from the spec: the storage collaborator [IBeaconDb] is not
    among the sources; an archive keeps what was added in archival order,
    [add] appends, and [lastValue()] is the most recently archived entry,
    or null when there is none. *)
Record DbWorld := mkDbWorld {
  db_stateArchive : list BeaconState;
  db_blockArchive : list SignedBeaconBlock;
  db_log : list LogRecord;
}.

Definition stateArchive_add (s : BeaconState) : M DbWorld unit :=
  modify (fun w => {| db_stateArchive := db_stateArchive w ++ [s];
                      db_blockArchive := db_blockArchive w;
                      db_log := db_log w |}).

Definition blockArchive_add (b : SignedBeaconBlock) : M DbWorld unit :=
  modify (fun w => {| db_stateArchive := db_stateArchive w;
                      db_blockArchive := db_blockArchive w ++ [b];
                      db_log := db_log w |}).

Definition stateArchive_lastValue : M DbWorld (option BeaconState) :=
  gets (fun w => last (db_stateArchive w)).

Definition logger_info (r : LogRecord) : M DbWorld unit :=
  modify (fun w => {| db_stateArchive := db_stateArchive w;
                      db_blockArchive := db_blockArchive w;
                      db_log := db_log w ++ [r] |}).

Definition createGenesisBlock (config : IBeaconConfig) (genesisState : BeaconState)
  : SignedBeaconBlock :=
  let genesisBlock := SignedBeaconBlock_defaultValue in
  let stateRoot :=
    hashTreeRoot (BeaconStateT (getTypes config GENESIS_SLOT)) genesisState in
  {| sb_message := set_b_stateRoot stateRoot (sb_message genesisBlock);
     sb_signature := sb_signature genesisBlock |}.

Definition persistAnchorState (config : IBeaconConfig) (anchorState : BeaconState)
  : M DbWorld unit :=
  (if st_slot anchorState =? GENESIS_SLOT then
     let genesisBlock := createGenesisBlock config anchorState in
     blockArchive_add genesisBlock ;; stateArchive_add anchorState
   else stateArchive_add anchorState)%js.

Definition initStateFromDb (config : IBeaconConfig) : M DbWorld BeaconState :=
  (state <- stateArchive_lastValue ;;
   match state with
   | None => throw (Error "No state exists in database")
   | Some state =>
       logger_info
         {| log_message := "Initializing beacon state from db";
            log_slot := st_slot state;
            log_epoch := computeEpochAtSlot config (st_slot state);
            log_stateRoot :=
              toHexString
                (hashTreeRoot (BeaconStateT (getTypes config (st_slot state))) state) |} ;;
       ret state
   end)%js.

Definition initStateFromAnchorState (config : IBeaconConfig) (anchorState : BeaconState)
  : M DbWorld BeaconState :=
  (logger_info
     {| log_message := "Initializing beacon state";
        log_slot := st_slot anchorState;
        log_epoch := computeEpochAtSlot config (st_slot anchorState);
        log_stateRoot :=
          toHexString
            (hashTreeRoot (BeaconStateT (getTypes config (st_slot anchorState)))
                          anchorState) |} ;;
   persistAnchorState config anchorState ;;
   ret anchorState)%js.

(* ===================================================================== *)
(** ** Signature-set extraction: voluntary exits *)
(* ===================================================================== *)

Section SignatureSets.

(** [state.getDomain(domainType, slot)], a method of the cached state. *)
Variable getDomain : BeaconState -> list byte -> Slot -> list byte.

(** [computeSigningRoot(config, type, object, domain)], imported. *)
Variable computeSigningRoot :
  forall T : Type, IBeaconConfig -> SszType T -> T -> list byte -> list byte.

Definition getVoluntaryExitSignatureSet
    (state : CachedBeaconState) (signedVoluntaryExit : SignedVoluntaryExit)
  : ISignatureSet :=
  let config := cs_config state in
  let epochCtx := cs_epochCtx state in
  let slot := computeStartSlotAtEpoch config (ve_epoch (sve_message signedVoluntaryExit)) in
  let domain := getDomain (cs_state state) (DOMAIN_VOLUNTARY_EXIT (params config)) slot in
  SignatureSet_single
    (index2pubkey epochCtx
       !! N.to_nat (ve_validatorIndex (sve_message signedVoluntaryExit)))
    (computeSigningRoot VoluntaryExit config (types_phase0_VoluntaryExit config)
       (sve_message signedVoluntaryExit) domain)
    (sve_signature signedVoluntaryExit).

Definition getVoluntaryExitsSignatureSets
    (state : CachedBeaconState) (signedBlock : SignedBeaconBlock)
  : list ISignatureSet :=
  map (fun voluntaryExit => getVoluntaryExitSignatureSet state voluntaryExit)
      (body_voluntaryExits (b_body (sb_message signedBlock))).

End SignatureSets.

(* ===================================================================== *)
(** ** Block processing: [processBlock] *)
(* ===================================================================== *)

Inductive StageCall :=
| CallProcessBlockHeader
| CallProcessRandao
| CallProcessEth1Data
| CallProcessOperations
| CallVerifyBlockStateRoot.

#[global] Instance StageCall_eq_dec : EqDecision StageCall.
Proof. solve_decision. Defined.

(** The store of beacon-state objects and the (ghost) list of the stage
    functions that were entered, in order. *)
Record StateWorld := mkStateWorld {
  sw_states : gmap nat BeaconState;
  sw_calls : list StageCall;
}.

(** What a stage does to the state object it is handed: the content it
    leaves in the object, and the exception if it throws. *)
Definition StageEffect : Type := BeaconState -> option exn * BeaconState.

(** Entering a stage function on the object behind [state]: the stage
    works on that very object, and its writes stay when it throws. *)
Definition call_stage (c : StageCall) (state : loc) (eff : StageEffect)
  : M StateWorld unit :=
  fun w =>
    match sw_states w !! state with
    | None => (inl (Error "TypeError: not a state"), w)
    | Some s =>
        let '(e, s') := eff s in
        let w' := {| sw_states := <[state := s']> (sw_states w);
                     sw_calls := sw_calls w ++ [c] |} in
        match e with
        | Some e => (inl e, w')
        | None => (inr tt, w')
        end
    end.

Section BlockProcessing.

(** The imported stage functions, each through its effect on the state
    object. *)
Variable processBlockHeader_effect : BeaconBlock -> bool -> StageEffect.
Variable processRandao_effect : BeaconBlockBody -> StageEffect.
Variable processEth1Data_effect : BeaconBlockBody -> StageEffect.
Variable processOperations_effect : BeaconBlockBody -> StageEffect.

(** The Merkle hash of a state, used by the state-root check. *)
Variable hashTreeRoot_BeaconState : BeaconState -> list byte.

Definition processBlockHeader (state : loc) (block : BeaconBlock) (verify : bool) :=
  call_stage CallProcessBlockHeader state (processBlockHeader_effect block verify).
Definition processRandao (state : loc) (body : BeaconBlockBody) :=
  call_stage CallProcessRandao state (processRandao_effect body).
Definition processEth1Data (state : loc) (body : BeaconBlockBody) :=
  call_stage CallProcessEth1Data state (processEth1Data_effect body).
Definition processOperations (state : loc) (body : BeaconBlockBody) :=
  call_stage CallProcessOperations state (processOperations_effect body).

(** Modelled from the spec: [verifyBlockStateRoot] is an imported helper;
    it computes the hash of the state and compares it against the block's
    declared state root, a mismatch being a failure of its own. *)
Definition verifyBlockStateRoot_effect (block : BeaconBlock) : StageEffect :=
  fun s =>
    if Root_equals (b_stateRoot block) (hashTreeRoot_BeaconState s)
    then (None, s)
    else (Some (Error "Invalid state root"), s).

Definition verifyBlockStateRoot (state : loc) (block : BeaconBlock) :=
  call_stage CallVerifyBlockStateRoot state (verifyBlockStateRoot_effect block).

Definition processBlock (state : loc) (block : BeaconBlock) (verify : bool)
  : M StateWorld unit :=
  ((* block header *)
   processBlockHeader state block verify ;;
   (* RANDAO *)
   processRandao state (b_body block) ;;
   (* Eth1 Data *)
   processEth1Data state (b_body block) ;;
   (* Operations *)
   processOperations state (b_body block) ;;
   if verify then
     (* Verify block stateRoot *)
     verifyBlockStateRoot state block
   else ret tt)%js.

End BlockProcessing.

(* ===================================================================== *)
(** ** Concrete instances for the worked examples *)
(* ===================================================================== *)

Definition byte_of_N (n : N) : byte := default x00 (Byte.of_N (n mod 256)).

(** Injective-enough stand-ins for the Merkle hashes: the fields, laid out
    one after the other. *)
Definition demo_block_hash (b : BeaconBlock) : list byte :=
  byte_of_N (b_slot b) :: byte_of_N (b_proposerIndex b)
    :: b_parentRoot b ++ b_stateRoot b.

Definition demo_body_hash (b : BeaconBlockBody) : list byte :=
  [xff; byte_of_N (N.of_nat (length (body_voluntaryExits b)))].

Definition demo_header_hash (h : BeaconBlockHeader) : list byte :=
  byte_of_N (h_slot h) :: byte_of_N (h_proposerIndex h)
    :: h_parentRoot h ++ h_stateRoot h ++ h_bodyRoot h.

Definition demo_state_hash (s : BeaconState) : list byte :=
  [xaa; byte_of_N (st_slot s); byte_of_N (h_slot (st_latestBlockHeader s));
   byte_of_N (N.of_nat (length (st_validators s)))].

Definition demo_types : ForkTypes :=
  {| BeaconBlockT := mkSszType _ demo_block_hash;
     BeaconBlockBodyT := mkSszType _ demo_body_hash;
     BeaconBlockHeaderT := mkSszType _ demo_header_hash;
     BeaconStateT := mkSszType _ demo_state_hash |}.

Definition demo_config : IBeaconConfig :=
  {| params := {| SLOTS_PER_EPOCH := 32; DOMAIN_VOLUNTARY_EXIT := [x04; x00; x00; x00] |};
     getTypes := fun _ => demo_types;
     getForkTypes := fun _ => demo_types;
     types_phase0_VoluntaryExit :=
       mkSszType _ (fun e => [byte_of_N (ve_epoch e); byte_of_N (ve_validatorIndex e)]) |}.

Definition demo_checkpoint : Checkpoint := {| cp_root := ZERO_HASH; cp_epoch := 0 |}.

Definition demo_header : BeaconBlockHeader :=
  {| h_slot := 64; h_proposerIndex := 1; h_parentRoot := [x11];
     h_stateRoot := ZERO_HASH; h_bodyRoot := [x22] |}.

(** A state at slot 70 whose embedded header (slot 64) still carries the
    zero placeholder as state root. *)
Definition demo_state : BeaconState :=
  {| st_slot := 70; st_latestBlockHeader := demo_header;
     st_validators := [[x01]; [x02]];
     st_previousJustifiedCheckpoint := demo_checkpoint;
     st_currentJustifiedCheckpoint := demo_checkpoint;
     st_finalizedCheckpoint := demo_checkpoint |}.

(** A genesis state: slot 0, embedded header at the genesis slot. *)
Definition demo_genesis_state : BeaconState :=
  {| st_slot := 0;
     st_latestBlockHeader :=
       {| h_slot := 0; h_proposerIndex := 0; h_parentRoot := ZERO_HASH;
          h_stateRoot := ZERO_HASH; h_bodyRoot := demo_body_hash BeaconBlockBody_defaultValue |};
     st_validators := [];
     st_previousJustifiedCheckpoint := demo_checkpoint;
     st_currentJustifiedCheckpoint := demo_checkpoint;
     st_finalizedCheckpoint := demo_checkpoint |}.

Definition demo_createEpochContext (config : IBeaconConfig) (s : BeaconState)
  : EpochContext :=
  {| index2pubkey := st_validators s |}.

Definition demo_cached : CachedBeaconState :=
  {| cs_config := demo_config;
     cs_epochCtx := demo_createEpochContext demo_config demo_state;
     cs_state := demo_state |}.

Definition demo_getProposerSignatureSet
    (state : CachedBeaconState) (block : SignedBeaconBlock) : ISignatureSet :=
  SignatureSet_single
    (index2pubkey (cs_epochCtx state) !! N.to_nat (b_proposerIndex (sb_message block)))
    (demo_block_hash (sb_message block))
    (sb_signature block).

Definition demo_bls_accept : IBlsVerifier := {| bls_answer := fun _ => true |}.
Definition demo_bls_reject : IBlsVerifier := {| bls_answer := fun _ => false |}.

(** A two-block chain below an anchor: [demo_old] (slot 1) is the parent of
    [demo_new] (slot 2), and the anchor root is the hash of [demo_new]. *)
Definition demo_old : SignedBeaconBlock :=
  {| sb_message := {| b_slot := 1; b_proposerIndex := 0; b_parentRoot := [x00];
                      b_stateRoot := [x0a]; b_body := BeaconBlockBody_defaultValue |};
     sb_signature := [x51] |}.

Definition demo_new : SignedBeaconBlock :=
  {| sb_message := {| b_slot := 2; b_proposerIndex := 1;
                      b_parentRoot := demo_block_hash (sb_message demo_old);
                      b_stateRoot := [x0b]; b_body := BeaconBlockBody_defaultValue |};
     sb_signature := [x52] |}.

Definition demo_anchorRoot : list byte := demo_block_hash (sb_message demo_new).

(** [demo_old] with its parent-root field changed: its hash no longer is
    the parent root recorded by [demo_new]. *)
Definition demo_old_broken : SignedBeaconBlock :=
  {| sb_message := {| b_slot := 1; b_proposerIndex := 0; b_parentRoot := [x01];
                      b_stateRoot := [x0a]; b_body := BeaconBlockBody_defaultValue |};
     sb_signature := [x51] |}.

Definition set_st_latestBlockHeader (h : BeaconBlockHeader) (s : BeaconState)
  : BeaconState :=
  {| st_slot := st_slot s; st_latestBlockHeader := h;
     st_validators := st_validators s;
     st_previousJustifiedCheckpoint := st_previousJustifiedCheckpoint s;
     st_currentJustifiedCheckpoint := st_currentJustifiedCheckpoint s;
     st_finalizedCheckpoint := st_finalizedCheckpoint s |}.

(** Modelled from the spec: the header stage of block processing, a
    function imported by the source.  It validates the block against the
    state (slot monotonicity, parent-root linkage) and updates the
    block-header field of the state; the header it stores carries a zeroed
    state root. *)
Definition spec_processBlockHeader_effect (config : IBeaconConfig)
    (block : BeaconBlock) (verify : bool) : StageEffect :=
  fun s =>
    if negb (h_slot (st_latestBlockHeader s) <? b_slot block)
    then (Some (Error "Invalid block slot"), s)
    else if negb (Root_equals
                    (b_parentRoot block)
                    (hashTreeRoot (BeaconBlockHeaderT (getTypes config (st_slot s)))
                                  (st_latestBlockHeader s)))
    then (Some (Error "Invalid parent root"), s)
    else (None,
          set_st_latestBlockHeader
            (set_h_stateRoot ZERO_HASH (blockToHeader config block)) s).

(** A stage that leaves the state as it is. *)
Definition demo_stage_noop (body : BeaconBlockBody) : StageEffect :=
  fun s => (None, s).

(** A block for slot 70 on top of [demo_state]. *)
Definition demo_block : BeaconBlock :=
  {| b_slot := 70; b_proposerIndex := 1;
     b_parentRoot := demo_header_hash demo_header;
     b_stateRoot := [x0c]; b_body := BeaconBlockBody_defaultValue |}.

Definition demo_state_world : StateWorld :=
  {| sw_states := {[ 0%nat := demo_state ]}; sw_calls := [] |}.

(** A store holding one array at reference 0, and nothing traced yet. *)
Definition demo_backfill_world (bs : list SignedBeaconBlock) : BackfillWorld :=
  {| bw_arrays := {[ 0%nat := bs ]}; bw_trace := [] |}.

(* ===================================================================== *)
(** ** Vocabulary of the statements *)
(* ===================================================================== *)

(** The comparison the loop of [verifyBlocks] makes for one block. *)
Definition link_ok (config : IBeaconConfig) (expected : list byte)
    (block : SignedBeaconBlock) : bool :=
  Root_equals
    (hashTreeRoot (BeaconBlockT (getForkTypes config (b_slot (sb_message block))))
                  (sb_message block))
    expected.

(** The elements a loop looks at when it stops at the first one that fails
    [ok]: the passing prefix and the first failing element. *)
Fixpoint examined {A} (ok : A -> bool) (xs : list A) : list A :=
  match xs with
  | [] => []
  | x :: rest => x :: (if ok x then examined ok rest else [])
  end.

Definition is_link_check (ev : BackfillEvent) : bool :=
  match ev with EvLinkCheck _ => true | _ => false end.

(** The stages of [processBlock] as a list, each with the tag it leaves
    in the call list: the four processing stages, then the state-root check
    when [verify] is set. *)
Definition main_stages
    (processBlockHeader_effect : BeaconBlock -> bool -> StageEffect)
    (processRandao_effect processEth1Data_effect processOperations_effect :
       BeaconBlockBody -> StageEffect)
    (block : BeaconBlock) (verify : bool) : list (StageCall * StageEffect) :=
  [ (CallProcessBlockHeader, processBlockHeader_effect block verify);
    (CallProcessRandao, processRandao_effect (b_body block));
    (CallProcessEth1Data, processEth1Data_effect (b_body block));
    (CallProcessOperations, processOperations_effect (b_body block)) ].

Definition block_stages
    (processBlockHeader_effect : BeaconBlock -> bool -> StageEffect)
    (processRandao_effect processEth1Data_effect processOperations_effect :
       BeaconBlockBody -> StageEffect)
    (hashTreeRoot_BeaconState : BeaconState -> list byte)
    (block : BeaconBlock) (verify : bool) : list (StageCall * StageEffect) :=
  main_stages processBlockHeader_effect processRandao_effect processEth1Data_effect
              processOperations_effect block verify
  ++ (if verify
      then [(CallVerifyBlockStateRoot,
             verifyBlockStateRoot_effect hashTreeRoot_BeaconState block)]
      else []).

(** Running a list of stages on the content [s] of one state object, the
    first exception ending the run: the exception if any, the content the
    object is left with, and the stages entered. *)
Fixpoint run_stages (stages : list (StageCall * StageEffect)) (s : BeaconState)
  : option exn * BeaconState * list StageCall :=
  match stages with
  | [] => (None, s, [])
  | (c, eff) :: rest =>
      match eff s with
      | (Some e, s') => (Some e, s', [c])
      | (None, s') =>
          let '(r, s'', cs) := run_stages rest s' in (r, s'', c :: cs)
      end
  end.

Definition outcome (r : option exn) : exn + unit :=
  match r with Some e => inl e | None => inr tt end.

(* ===================================================================== *)
(** ** Genesis from eth1: [persistGenesisResult], [initStateFromEth1] *)
(* ===================================================================== *)

(** The eth1 block a genesis was determined at: its timestamp, and the
    rest of its fields, which the source copies as they are. *)
Record Eth1Block := mkEth1Block {
  eb_timestamp : N;
  eb_rest : list byte;
}.

(** What is put under [db.eth1Data]: the fields of the block (spread), the
    deposit count and the deposit root. *)
Record Eth1DataRecord := mkEth1Data {
  ed_block : Eth1Block;
  ed_depositCount : nat;
  ed_depositRoot : list byte;
}.

(** [IGenesisResult]: the genesis state, the deposit tree (a list of
    roots) and the eth1 block. *)
Record IGenesisResult := mkGenesisResult {
  gr_state : BeaconState;
  gr_depositTree : list (list byte);
  gr_block : Eth1Block;
}.

(** The two [logger.info] events of [initStateFromEth1]. *)
Inductive GenesisInfo :=
| InfoListening
| InfoInitializing (stateRoot blockRoot : string) (validatorCount : nat).

(** Modelled from the spec: the storage collaborator beside the two
    archives, [depositDataRoot.putList(tree)] and
    [eth1Data.put(timestamp, record)]; the deposit-root store keeps the
    roots it was given in order, the eth1 store keeps one record per
    timestamp. *)
Record GenesisWorld := mkGenesisWorld {
  gw_db : DbWorld;
  gw_depositDataRoot : list (list byte);
  gw_eth1Data : gmap N Eth1DataRecord;
  gw_info : list GenesisInfo;
}.

(** An operation on the archives, run inside the larger world. *)
Definition lift_db {A} (m : M DbWorld A) : M GenesisWorld A :=
  fun w =>
    let '(r, d) := m (gw_db w) in
    (r, {| gw_db := d; gw_depositDataRoot := gw_depositDataRoot w;
           gw_eth1Data := gw_eth1Data w; gw_info := gw_info w |}).

Definition depositDataRoot_putList (tree : list (list byte)) : M GenesisWorld unit :=
  modify (fun w => {| gw_db := gw_db w;
                      gw_depositDataRoot := gw_depositDataRoot w ++ tree;
                      gw_eth1Data := gw_eth1Data w; gw_info := gw_info w |}).

Definition eth1Data_put (timestamp : N) (r : Eth1DataRecord) : M GenesisWorld unit :=
  modify (fun w => {| gw_db := gw_db w;
                      gw_depositDataRoot := gw_depositDataRoot w;
                      gw_eth1Data := <[timestamp := r]> (gw_eth1Data w);
                      gw_info := gw_info w |}).

Definition genesis_info (i : GenesisInfo) : M GenesisWorld unit :=
  modify (fun w => {| gw_db := gw_db w;
                      gw_depositDataRoot := gw_depositDataRoot w;
                      gw_eth1Data := gw_eth1Data w;
                      gw_info := gw_info w ++ [i] |}).

Section Genesis.

(** [depositTree.hashTreeRoot()], a method of the tree-backed list. *)
Variable depositTree_hashTreeRoot : list (list byte) -> list byte.

(** What awaiting [builder.waitForGenesis()] ends with: the genesis result,
    or the exception it rejects with (the wait can be aborted). *)
Variable waitForGenesis : exn + IGenesisResult.

(** The record put under [db.eth1Data]. *)
Definition genesis_eth1Data (genesisResult : IGenesisResult) : Eth1DataRecord :=
  {| ed_block := gr_block genesisResult;
     ed_depositCount := length (gr_depositTree genesisResult);
     ed_depositRoot := depositTree_hashTreeRoot (gr_depositTree genesisResult) |}.

(** The four writes are started together and awaited with [Promise.all];
    here they run one after the other, in the order they are listed. *)
Definition persistGenesisResult
    (genesisResult : IGenesisResult) (genesisBlock : SignedBeaconBlock)
  : M GenesisWorld unit :=
  (lift_db (stateArchive_add (gr_state genesisResult)) ;;
   lift_db (blockArchive_add genesisBlock) ;;
   depositDataRoot_putList (gr_depositTree genesisResult) ;;
   eth1Data_put (eb_timestamp (gr_block genesisResult))
                (genesis_eth1Data genesisResult))%js.

Definition initStateFromEth1 (config : IBeaconConfig) : M GenesisWorld BeaconState :=
  (genesis_info InfoListening ;;
   genesisResult <- (fun w => (waitForGenesis, w)) ;;
   let genesisBlock := createGenesisBlock config (gr_state genesisResult) in
   let stateRoot :=
     hashTreeRoot (BeaconStateT (getTypes config (st_slot (gr_state genesisResult))))
                  (gr_state genesisResult) in
   let blockRoot :=
     hashTreeRoot (BeaconBlockT (getTypes config (st_slot (gr_state genesisResult))))
                  (sb_message genesisBlock) in
   genesis_info
     (InfoInitializing (toHexString stateRoot) (toHexString blockRoot)
                       (length (st_validators (gr_state genesisResult)))) ;;
   persistGenesisResult genesisResult genesisBlock ;;
   ret (gr_state genesisResult))%js.

End Genesis.

(* ===================================================================== *)
(** ** Verifying one voluntary exit: [verifyVoluntaryExitSignature] *)
(* ===================================================================== *)

Section VerifyExit.

Variable getDomain : BeaconState -> list byte -> Slot -> list byte.
Variable computeSigningRoot :
  forall T : Type, IBeaconConfig -> SszType T -> T -> list byte -> list byte.

(** [verifySignatureSet], imported: the check of one signature set. *)
Variable verifySignatureSet : ISignatureSet -> bool.

Definition verifyVoluntaryExitSignature
    (state : CachedBeaconState) (signedVoluntaryExit : SignedVoluntaryExit) : bool :=
  verifySignatureSet
    (getVoluntaryExitSignatureSet getDomain computeSigningRoot state signedVoluntaryExit).

End VerifyExit.

(* ===================================================================== *)
(** ** Further instances for the worked examples *)
(* ===================================================================== *)

(** A randao stage that rejects the block without writing to the state. *)
Definition demo_randao_throw (body : BeaconBlockBody) : StageEffect :=
  fun s => (Some (Error "Invalid randao"), s).

(** [demo_block] with the state root that processing it on [demo_state]
    produces. *)
Definition demo_block_rooted : BeaconBlock :=
  {| b_slot := 70; b_proposerIndex := 1;
     b_parentRoot := demo_header_hash demo_header;
     b_stateRoot :=
       demo_state_hash
         (set_st_latestBlockHeader
            (set_h_stateRoot ZERO_HASH (blockToHeader demo_config demo_block))
            demo_state);
     b_body := BeaconBlockBody_defaultValue |}.

Definition demo_db_world : DbWorld :=
  {| db_stateArchive := [demo_state]; db_blockArchive := []; db_log := [] |}.

Definition demo_genesis_world : GenesisWorld :=
  {| gw_db := demo_db_world; gw_depositDataRoot := [];
     gw_eth1Data := ∅; gw_info := [] |}.

Definition demo_genesis_result : IGenesisResult :=
  {| gr_state := demo_genesis_state;
     gr_depositTree := [[x0d]; [x0e]];
     gr_block := {| eb_timestamp := 1606824000; eb_rest := [x1b] |} |}.

Definition demo_tree_hash (tree : list (list byte)) : list byte :=
  xdd :: concat tree.

(* ===================================================================== *)
(** ** Instances with roots of 32 bytes *)
(* ===================================================================== *)

(** The first 32 bytes of the argument, filled up with zero bytes. *)
Definition pad32 (bs : list byte) : list byte := take 32 (bs ++ repeat x00 32).

Definition wf_block_hash (b : BeaconBlock) : list byte :=
  pad32 (x01 :: byte_of_N (b_slot b) :: byte_of_N (b_proposerIndex b)
           :: take 8 (b_parentRoot b) ++ take 8 (b_stateRoot b)).

Definition wf_body_hash (b : BeaconBlockBody) : list byte :=
  pad32 [x02; byte_of_N (N.of_nat (length (body_voluntaryExits b)))].

Definition wf_header_hash (h : BeaconBlockHeader) : list byte :=
  pad32 (x03 :: byte_of_N (h_slot h) :: byte_of_N (h_proposerIndex h)
           :: take 8 (h_parentRoot h) ++ take 8 (h_stateRoot h)
              ++ take 8 (h_bodyRoot h)).

Definition wf_state_hash (s : BeaconState) : list byte :=
  pad32 [x04; byte_of_N (st_slot s); byte_of_N (h_slot (st_latestBlockHeader s));
         byte_of_N (N.of_nat (length (st_validators s)))].

Definition wf_types : ForkTypes :=
  {| BeaconBlockT := mkSszType _ wf_block_hash;
     BeaconBlockBodyT := mkSszType _ wf_body_hash;
     BeaconBlockHeaderT := mkSszType _ wf_header_hash;
     BeaconStateT := mkSszType _ wf_state_hash |}.

Definition wf_config : IBeaconConfig :=
  {| params := {| SLOTS_PER_EPOCH := 32; DOMAIN_VOLUNTARY_EXIT := [x04; x00; x00; x00] |};
     getTypes := fun _ => wf_types;
     getForkTypes := fun _ => wf_types;
     types_phase0_VoluntaryExit :=
       mkSszType _ (fun e => pad32 [x05; byte_of_N (ve_epoch e);
                                    byte_of_N (ve_validatorIndex e)]) |}.

(** A genesis state: slot 0, the embedded header at the genesis slot with
    the zero placeholder as state root. *)
Definition wf_genesis_state : BeaconState :=
  {| st_slot := 0;
     st_latestBlockHeader :=
       {| h_slot := 0; h_proposerIndex := 0; h_parentRoot := ZERO_HASH;
          h_stateRoot := ZERO_HASH;
          h_bodyRoot := wf_body_hash BeaconBlockBody_defaultValue |};
     st_validators := [];
     st_previousJustifiedCheckpoint := demo_checkpoint;
     st_currentJustifiedCheckpoint := demo_checkpoint;
     st_finalizedCheckpoint := demo_checkpoint |}.

(** A state at slot 70 with two validators, its embedded header (slot 64)
    carrying the zero placeholder as state root. *)
Definition wf_state : BeaconState :=
  {| st_slot := 70;
     st_latestBlockHeader :=
       {| h_slot := 64; h_proposerIndex := 1; h_parentRoot := pad32 [x11];
          h_stateRoot := ZERO_HASH;
          h_bodyRoot := wf_body_hash BeaconBlockBody_defaultValue |};
     st_validators := [repeat x01 48; repeat x02 48];
     st_previousJustifiedCheckpoint := demo_checkpoint;
     st_currentJustifiedCheckpoint := demo_checkpoint;
     st_finalizedCheckpoint := demo_checkpoint |}.

(** [wf_state] with an embedded header whose state root is already set. *)
Definition wf_state_rooted : BeaconState :=
  {| st_slot := 70;
     st_latestBlockHeader :=
       {| h_slot := 64; h_proposerIndex := 1; h_parentRoot := pad32 [x11];
          h_stateRoot := pad32 [x12];
          h_bodyRoot := wf_body_hash BeaconBlockBody_defaultValue |};
     st_validators := [repeat x01 48; repeat x02 48];
     st_previousJustifiedCheckpoint := demo_checkpoint;
     st_currentJustifiedCheckpoint := demo_checkpoint;
     st_finalizedCheckpoint := demo_checkpoint |}.

Definition wf_cached (s : BeaconState) : CachedBeaconState :=
  {| cs_config := wf_config;
     cs_epochCtx := demo_createEpochContext wf_config s;
     cs_state := s |}.

Definition wf_getProposerSignatureSet
    (state : CachedBeaconState) (block : SignedBeaconBlock) : ISignatureSet :=
  SignatureSet_single
    (index2pubkey (cs_epochCtx state) !! N.to_nat (b_proposerIndex (sb_message block)))
    (wf_block_hash (sb_message block))
    (sb_signature block).

(** Two blocks, slot 1 and slot 2, the second recording the first as its
    parent; the anchor root is the hash of the second. *)
Definition wf_old : SignedBeaconBlock :=
  {| sb_message := {| b_slot := 1; b_proposerIndex := 0; b_parentRoot := pad32 [x09];
                      b_stateRoot := pad32 [x0a];
                      b_body := BeaconBlockBody_defaultValue |};
     sb_signature := repeat x51 96 |}.

Definition wf_new : SignedBeaconBlock :=
  {| sb_message := {| b_slot := 2; b_proposerIndex := 1;
                      b_parentRoot := wf_block_hash (sb_message wf_old);
                      b_stateRoot := pad32 [x0b];
                      b_body := BeaconBlockBody_defaultValue |};
     sb_signature := repeat x52 96 |}.

Definition wf_anchorRoot : list byte := wf_block_hash (sb_message wf_new).

(** The blocks of an array stand oldest first: their slots do not
    decrease from one element to the next. *)
Fixpoint oldest_first (bs : list SignedBeaconBlock) : bool :=
  match bs with
  | [] => true
  | b :: rest =>
      match rest with
      | [] => true
      | b' :: _ => (b_slot (sb_message b) <=? b_slot (sb_message b')) && oldest_first rest
      end
  end.

(** The caches refer to existing objects only (no reference into the
    heap is dangling). *)
Definition caches_closed (w : CacheWorld) : Prop :=
  (forall r l, cw_stateCache w !! r = Some l -> is_Some (cw_heap w !! l)) /\
  (forall c l, cw_checkpointStateCache w !! c = Some l -> is_Some (cw_heap w !! l)).

Definition empty_cache_world : CacheWorld :=
  {| cw_heap := ∅; cw_stateCache := ∅; cw_checkpointStateCache := ∅ |}.

(* ===================================================================== *)
(** * Properties *)
(* ===================================================================== *)

Lemma Root_equals_refl (a : list byte) : Root_equals a a = true.
Proof. unfold Root_equals. by apply bool_decide_eq_true. Qed.

Lemma Root_equals_true (a b : list byte) : Root_equals a b = true <-> a = b.
Proof. unfold Root_equals. apply bool_decide_eq_true. Qed.

Lemma Root_equals_false (a b : list byte) : Root_equals a b = false <-> a <> b.
Proof. unfold Root_equals. apply bool_decide_eq_false. Qed.

(** ** Running computations *)

Lemma bind_inr {W A B} (m : M W A) (k : A -> M W B) w a w' :
  m w = (inr a, w') -> bind m k w = k a w'.
Proof. intros H. unfold bind. by rewrite H. Qed.

Lemma bind_inl {W A B} (m : M W A) (k : A -> M W B) w e w' :
  m w = (inl e, w') -> bind m k w = (inl e, w').
Proof. intros H. unfold bind. by rewrite H. Qed.

Lemma array_read_run a w xs :
  bw_arrays w !! a = Some xs -> array_read a w = (inr xs, w).
Proof. intros H. unfold array_read. by rewrite H. Qed.

Lemma array_reverse_run a w xs :
  bw_arrays w !! a = Some xs ->
  array_reverse a w
  = (inr a, {| bw_arrays := <[a := rev xs]> (bw_arrays w); bw_trace := bw_trace w |}).
Proof.
  intros H. unfold array_reverse.
  erewrite bind_inr by (by apply array_read_run). done.
Qed.

(** ** Running loops *)

Lemma examined_all_ok {A} (ok : A -> bool) (xs : list A) :
  forallb ok xs = true -> examined ok xs = xs.
Proof.
  induction xs as [|x xs IH]; simpl; [done|].
  intros [Hx Hxs]%andb_true_iff. rewrite Hx. by rewrite IH.
Qed.

Lemma for_of_emit {A} (f : A -> BackfillEvent) (xs : list A) (w : BackfillWorld) :
  for_of xs (fun x => emit (f x)) w
  = (inr tt, {| bw_arrays := bw_arrays w; bw_trace := bw_trace w ++ map f xs |}).
Proof.
  revert w. induction xs as [|x xs IH]; intros w; simpl.
  - unfold ret. destruct w; simpl. by rewrite app_nil_r.
  - unfold bind, emit, modify. rewrite IH. simpl. by rewrite <- app_assoc.
Qed.

Section BackfillFacts.

Variable getProposerSignatureSet :
  CachedBeaconState -> SignedBeaconBlock -> ISignatureSet.

(** The loop of [verifyBlocks]: it stops at the first block whose hash is
    not [anchorRoot], and then always with [NOT_ANCHORED]. *)
Lemma for_of_check_link config anchorRoot (xs : list SignedBeaconBlock) w :
  for_of xs (check_link config anchorRoot anchorRoot) w
  = (if forallb (link_ok config anchorRoot) xs
     then inr tt else inl (BackfillSyncError NOT_ANCHORED),
     {| bw_arrays := bw_arrays w;
        bw_trace := bw_trace w
                      ++ map EvLinkCheck (examined (link_ok config anchorRoot) xs) |}).
Proof.
  revert w. induction xs as [|x xs IH]; intros w; simpl.
  - unfold ret. destruct w; simpl. by rewrite app_nil_r.
  - unfold bind at 1. unfold check_link at 1. unfold bind, emit, modify.
    fold (link_ok config anchorRoot x).
    destruct (link_ok config anchorRoot x) eqn:Hx; simpl.
    + unfold ret. rewrite IH. simpl. by rewrite <- app_assoc.
    + rewrite Root_equals_refl. unfold throw. done.
Qed.

(** The complete run of [verifyBlocks] on an array holding [bs]. *)
Lemma verifyBlocks_run config bls state blocks anchorRoot w bs :
  bw_arrays w !! blocks = Some bs ->
  verifyBlocks getProposerSignatureSet config bls state blocks anchorRoot w
  = match bs with
    | [] => (inr tt, w)
    | _ :: _ =>
        let seq := rev bs in
        let arrays := <[blocks := seq]> (bw_arrays w) in
        if forallb (link_ok config anchorRoot) seq then
          let sets := map (getProposerSignatureSet state) seq in
          (if bls_answer bls sets then inr tt
           else inl (BackfillSyncError INVALID_SIGNATURE),
           {| bw_arrays := arrays;
              bw_trace := bw_trace w ++ map EvLinkCheck seq
                            ++ map EvProposerSignatureSet seq
                            ++ [EvVerifySignatureSets sets] |})
        else
          (inl (BackfillSyncError NOT_ANCHORED),
           {| bw_arrays := arrays;
              bw_trace := bw_trace w
                ++ map EvLinkCheck (examined (link_ok config anchorRoot) seq) |})
    end.
Proof.
  intros Hbs. unfold verifyBlocks.
  erewrite bind_inr by (by apply array_read_run).
  destruct bs as [|b bs']; [done|].
  change (length (b :: bs') =? 0)%nat with false. cbv iota zeta.
  erewrite bind_inr by (by apply array_reverse_run).
  erewrite bind_inr by (apply array_read_run; apply lookup_insert_eq).
  destruct (forallb (link_ok config anchorRoot) (rev (b :: bs'))) eqn:Hall.
  - erewrite bind_inr
      by (rewrite for_of_check_link, Hall, (examined_all_ok _ _ Hall); reflexivity).
    cbn [bw_arrays bw_trace].
    unfold map_proposer_sets.
    erewrite bind_inr; cycle 1.
    { erewrite bind_inr by (apply array_read_run; apply lookup_insert_eq).
      erewrite bind_inr by apply for_of_emit. reflexivity. }
    unfold bind, verifySignatureSets, bind, emit, modify, ret, throw.
    cbn [bw_arrays bw_trace]. rewrite <- !app_assoc.
    by destruct (bls_answer bls _).
  - erewrite bind_inl by (rewrite for_of_check_link, Hall; reflexivity).
    done.
Qed.

End BackfillFacts.

(* ===================================================================== *)
(** ** [verifyBlocks] *)
(* ===================================================================== *)

Lemma elem_of_app_new {A} (x : A) (old new : list A) :
  x ∈ old ++ new -> x ∉ old -> x ∈ new.
Proof. intros [?|?]%elem_of_app ?; [done|done]. Qed.

(** No run of [verifyBlocks] ends with [NOT_LINEAR]: the expected root
    stays [anchorRoot], so the inner test always selects [NOT_ANCHORED]. *)
Lemma verifyBlocks_never_NOT_LINEAR
    getProposerSignatureSet config bls state blocks anchorRoot w :
  fst (verifyBlocks getProposerSignatureSet config bls state blocks anchorRoot w)
  <> inl (BackfillSyncError NOT_LINEAR).
Proof.
  destruct (bw_arrays w !! blocks) as [bs|] eqn:Hbs.
  - rewrite (verifyBlocks_run _ _ _ _ _ _ _ _ Hbs).
    destruct bs as [|b bs']; [done|]. cbv zeta.
    destruct (forallb _ _); [|done]. simpl. by destruct (bls_answer _ _).
  - unfold verifyBlocks. erewrite bind_inl; [|unfold array_read; by rewrite Hbs]. done.
Qed.

(** Whichever block fails the comparison, the first one looked at or a
    later one, the call ends with [NOT_ANCHORED]. *)
Lemma verifyBlocks_any_mismatch_NOT_ANCHORED
    getProposerSignatureSet config bls state blocks anchorRoot w bs :
  bw_arrays w !! blocks = Some bs ->
  forallb (link_ok config anchorRoot) (rev bs) = false ->
  fst (verifyBlocks getProposerSignatureSet config bls state blocks anchorRoot w)
  = inl (BackfillSyncError NOT_ANCHORED).
Proof.
  intros Hbs Hbad. rewrite (verifyBlocks_run _ _ _ _ _ _ _ _ Hbs).
  destruct bs as [|b bs']; [discriminate|]. cbv zeta. by rewrite Hbad.
Qed.

Lemma verifyBlocks_any_mismatch_NOT_ANCHORED_witness :
  fst (verifyBlocks demo_getProposerSignatureSet demo_config demo_bls_accept demo_cached
                    0%nat demo_anchorRoot (demo_backfill_world [demo_old; demo_new]))
  = inl (BackfillSyncError NOT_ANCHORED).
Proof.
  apply (verifyBlocks_any_mismatch_NOT_ANCHORED _ _ _ _ _ _ _ [demo_old; demo_new]);
    reflexivity.
Defined.

(** C7. [verifyBlocks] on an empty block array returns without an
    exception, whatever the state and the anchor root are, and leaves the
    world as it found it: no linkage comparison, no signature set, no call
    of the batch verifier, and the array untouched. *)
Theorem verifyBlocks_empty
    getProposerSignatureSet config bls state blocks anchorRoot w :
  bw_arrays w !! blocks = Some [] ->
  verifyBlocks getProposerSignatureSet config bls state blocks anchorRoot w
  = (inr tt, w).
Proof. intros Hbs. by rewrite (verifyBlocks_run _ _ _ _ _ _ _ _ Hbs). Qed.

Lemma verifyBlocks_empty_witness :
  verifyBlocks demo_getProposerSignatureSet demo_config demo_bls_reject demo_cached
               0%nat [x13; x37] (demo_backfill_world [])
  = (inr tt, demo_backfill_world []).
Proof. apply verifyBlocks_empty. reflexivity. Defined.

(** C3. In [verifyBlocks], signature sets are extracted and the batch
    verifier is called only after every block of the array passed the
    linkage comparison: when some block fails it, the call ends with a
    linkage error and the trace gained linkage comparisons only; when all
    pass, the trace gains the comparisons, then one signature set per block,
    then exactly one call of the verifier, whose [false] answer ends the
    call with [INVALID_SIGNATURE]. *)
Theorem verifyBlocks_signatures_after_linkage
    getProposerSignatureSet config bls state blocks anchorRoot w bs :
  bw_arrays w !! blocks = Some bs ->
  let run := verifyBlocks getProposerSignatureSet config bls state blocks anchorRoot w in
  let seq := rev bs in
  let sets := map (getProposerSignatureSet state) seq in
  (forallb (link_ok config anchorRoot) seq = false ->
     bw_trace (snd run)
       = bw_trace w ++ map EvLinkCheck (examined (link_ok config anchorRoot) seq) /\
     exists code, fst run = inl (BackfillSyncError code) /\ code <> INVALID_SIGNATURE) /\
  (bs <> [] -> forallb (link_ok config anchorRoot) seq = true ->
     bw_trace (snd run)
       = bw_trace w ++ map EvLinkCheck seq ++ map EvProposerSignatureSet seq
           ++ [EvVerifySignatureSets sets] /\
     fst run = if bls_answer bls sets then inr tt
               else inl (BackfillSyncError INVALID_SIGNATURE)) /\
  (forall ev, ev ∈ bw_trace (snd run) -> ev ∉ bw_trace w -> is_link_check ev = false ->
     forallb (link_ok config anchorRoot) seq = true).
Proof.
  intros Hbs run seq sets. subst run.
  rewrite (verifyBlocks_run _ _ _ _ _ _ _ _ Hbs).
  destruct bs as [|b bs']; [|fold seq; cbv zeta; fold sets].
  - repeat split; done.
  - destruct (forallb (link_ok config anchorRoot) seq) eqn:Hall.
    + repeat split; try done.
    + repeat split; try done.
      * by exists NOT_ANCHORED.
      * simpl. intros ev Hin Hnew Hev.
        apply elem_of_app_new in Hin; [|done].
        apply list_elem_of_fmap in Hin as (blk & -> & _). done.
Qed.

Lemma verifyBlocks_signatures_after_linkage_witness :
  fst (verifyBlocks demo_getProposerSignatureSet demo_config demo_bls_reject demo_cached
                    0%nat demo_anchorRoot (demo_backfill_world [demo_new]))
  = inl (BackfillSyncError INVALID_SIGNATURE).
Proof.
  pose proof (verifyBlocks_signatures_after_linkage
                demo_getProposerSignatureSet demo_config demo_bls_reject demo_cached
                0%nat demo_anchorRoot (demo_backfill_world [demo_new]) [demo_new]
                eq_refl) as H.
  cbv zeta in H. destruct H as (_ & H & _).
  destruct (H ltac:(discriminate) eq_refl) as [_ Hres]. exact Hres.
Defined.

(** C10 (as amended). [verifyBlocks] reverses the caller's array in
    place: for a non-empty array, whether the call returns or throws, the
    array behind the reference afterwards holds the supplied elements in
    reverse order, whichever order they were supplied in, and the signature
    sets handed to the batch verifier are those of the blocks in that
    reversed order. *)
Theorem verifyBlocks_reverses_in_place
    getProposerSignatureSet config bls state blocks anchorRoot w bs :
  bw_arrays w !! blocks = Some bs ->
  bs <> [] ->
  let run := verifyBlocks getProposerSignatureSet config bls state blocks anchorRoot w in
  bw_arrays (snd run) = <[blocks := rev bs]> (bw_arrays w) /\
  (forall sets, EvVerifySignatureSets sets ∈ bw_trace (snd run) ->
     EvVerifySignatureSets sets ∈ bw_trace w \/
     sets = map (getProposerSignatureSet state) (rev bs)) /\
  (forallb (link_ok config anchorRoot) (rev bs) = true ->
     EvVerifySignatureSets (map (getProposerSignatureSet state) (rev bs))
       ∈ bw_trace (snd run)).
Proof.
  intros Hbs Hne run. subst run.
  rewrite (verifyBlocks_run _ _ _ _ _ _ _ _ Hbs).
  destruct bs as [|b bs']; [done|]. cbv zeta.
  destruct (forallb (link_ok config anchorRoot) (rev (b :: bs'))) eqn:Hall;
    cbn [fst snd bw_arrays bw_trace].
  - split; [done|]. split.
    + intros sets Hin.
      rewrite !elem_of_app in Hin. destruct Hin as [?|[Hin|[Hin|Hin]]]; [by left|..].
      * apply list_elem_of_fmap in Hin as (? & ? & _); discriminate.
      * apply list_elem_of_fmap in Hin as (? & ? & _); discriminate.
      * apply list_elem_of_singleton in Hin. right. congruence.
    + intros _. rewrite !elem_of_app. do 3 right. by apply list_elem_of_singleton.
  - split; [done|]. split; [|done].
    intros sets Hin. rewrite elem_of_app in Hin. destruct Hin as [?|Hin]; [by left|].
    apply list_elem_of_fmap in Hin as (? & ? & _); discriminate.
Qed.

Lemma verifyBlocks_reverses_in_place_witness :
  bw_arrays
    (snd (verifyBlocks demo_getProposerSignatureSet demo_config demo_bls_accept
                       demo_cached 0%nat demo_anchorRoot
                       (demo_backfill_world [demo_old; demo_new])))
  = <[0%nat := [demo_new; demo_old]]> {[ 0%nat := [demo_old; demo_new] ]}.
Proof.
  exact (proj1 (verifyBlocks_reverses_in_place
                  demo_getProposerSignatureSet demo_config demo_bls_accept demo_cached
                  0%nat demo_anchorRoot (demo_backfill_world [demo_old; demo_new])
                  [demo_old; demo_new] eq_refl ltac:(discriminate))).
Defined.

(** C10 (as stated) fails: the array is reversed, not put oldest first.
    An array supplied oldest first (slot 1, then slot 2) is left newest
    first, here by a call that throws at the second block it compares. *)
Lemma verifyBlocks_reversed_not_oldest_first :
  oldest_first [wf_old; wf_new] = true /\
  fst (verifyBlocks wf_getProposerSignatureSet wf_config demo_bls_accept
         (wf_cached wf_state) 0%nat wf_anchorRoot
         (demo_backfill_world [wf_old; wf_new]))
  = inl (BackfillSyncError NOT_ANCHORED) /\
  bw_arrays
    (snd (verifyBlocks wf_getProposerSignatureSet wf_config demo_bls_accept
            (wf_cached wf_state) 0%nat wf_anchorRoot
            (demo_backfill_world [wf_old; wf_new]))) !! 0%nat
  = Some [wf_new; wf_old] /\
  oldest_first [wf_new; wf_old] = false.
Proof. repeat split; vm_compute; reflexivity. Qed.

(** C1 (the code departs from it).  A chain of two blocks anchored at
    [demo_anchorRoot]: the newer block hashes to the anchor root.  Whether
    the older block is the parent the newer one records, or has its
    parent-root field changed so that the link below the newer block is
    broken, [verifyBlocks] ends with [NOT_ANCHORED] at the second block it
    looks at, never with [NOT_LINEAR]: the second block is compared against
    [anchorRoot] again, not against the parent root of the first. *)
Theorem verifyBlocks_second_block_compared_to_anchor :
  link_ok demo_config demo_anchorRoot demo_new = true /\
  link_ok demo_config (b_parentRoot (sb_message demo_new)) demo_old = true /\
  link_ok demo_config (b_parentRoot (sb_message demo_new)) demo_old_broken = false /\
  fst (verifyBlocks demo_getProposerSignatureSet demo_config demo_bls_accept demo_cached
                    0%nat demo_anchorRoot
                    (demo_backfill_world [demo_old_broken; demo_new]))
  = inl (BackfillSyncError NOT_ANCHORED) /\
  fst (verifyBlocks demo_getProposerSignatureSet demo_config demo_bls_accept demo_cached
                    0%nat demo_anchorRoot
                    (demo_backfill_world [demo_old; demo_new]))
  = inl (BackfillSyncError NOT_ANCHORED) /\
  bw_trace
    (snd (verifyBlocks demo_getProposerSignatureSet demo_config demo_bls_accept
                       demo_cached 0%nat demo_anchorRoot
                       (demo_backfill_world [demo_old_broken; demo_new])))
  = [EvLinkCheck demo_new; EvLinkCheck demo_old_broken].
Proof. repeat split; vm_compute; reflexivity. Qed.

(* ===================================================================== *)
(** ** [computeAnchorCheckpoint] *)
(* ===================================================================== *)

Lemma computeEpochAtSlot_contains config slot :
  0 < SLOTS_PER_EPOCH (params config) ->
  computeEpochAtSlot config slot * SLOTS_PER_EPOCH (params config) <= slot
  /\ slot < (computeEpochAtSlot config slot + 1) * SLOTS_PER_EPOCH (params config).
Proof.
  intros Hpos. unfold computeEpochAtSlot.
  set (n := SLOTS_PER_EPOCH (params config)) in *.
  pose proof (N.div_mod slot n ltac:(lia)) as Hdm.
  pose proof (N.mod_upper_bound slot n ltac:(lia)) as Hub.
  generalize dependent (slot / n). generalize dependent (slot mod n).
  intros r Hr q Hq. rewrite N.mul_add_distr_r. lia.
Qed.

(** C4 (as amended). [computeAnchorCheckpoint] hashes, for the checkpoint
    root, the header it returns.  When the embedded latest block header of
    the anchor state has the genesis slot, that header is the header of a
    default block whose state root was set to the hash of the state: its
    state root is the hash of the state, its slot and proposer index are 0,
    its parent root is the zero root, and its body root is the hash of the
    default block body.  Otherwise the header is a copy of the embedded
    header with the same slot, proposer index, parent root and body root,
    whose state root is the hash of the state when the embedded one is the
    zero placeholder, and the embedded one when it is not.  In both cases
    the checkpoint epoch is the epoch that contains the slot of the state. *)
Theorem computeAnchorCheckpoint_root_and_epoch config anchorState :
  let types := getTypes config (st_slot anchorState) in
  let stateRoot := hashTreeRoot (BeaconStateT types) anchorState in
  let latest := st_latestBlockHeader anchorState in
  let checkpoint := fst (computeAnchorCheckpoint config anchorState) in
  let blockHeader := snd (computeAnchorCheckpoint config anchorState) in
  cp_root checkpoint = hashTreeRoot (BeaconBlockHeaderT types) blockHeader /\
  (h_slot latest = GENESIS_SLOT ->
     h_stateRoot blockHeader = stateRoot /\
     h_slot blockHeader = 0 /\
     h_proposerIndex blockHeader = 0 /\
     h_parentRoot blockHeader = ZERO_HASH /\
     h_bodyRoot blockHeader
     = hashTreeRoot (BeaconBlockBodyT (getForkTypes config 0))
                    {| body_voluntaryExits := [] |}) /\
  (h_slot latest <> GENESIS_SLOT ->
     (h_stateRoot latest = ZERO_HASH -> h_stateRoot blockHeader = stateRoot) /\
     (h_stateRoot latest <> ZERO_HASH -> h_stateRoot blockHeader = h_stateRoot latest) /\
     h_slot blockHeader = h_slot latest /\
     h_proposerIndex blockHeader = h_proposerIndex latest /\
     h_parentRoot blockHeader = h_parentRoot latest /\
     h_bodyRoot blockHeader = h_bodyRoot latest) /\
  cp_epoch checkpoint = computeEpochAtSlot config (st_slot anchorState) /\
  cp_epoch checkpoint * SLOTS_PER_EPOCH (params config) <= st_slot anchorState /\
  (0 < SLOTS_PER_EPOCH (params config) ->
     st_slot anchorState < (cp_epoch checkpoint + 1) * SLOTS_PER_EPOCH (params config)).
Proof.
  cbv zeta.
  assert (Hepoch :
    computeEpochAtSlot config (st_slot anchorState) * SLOTS_PER_EPOCH (params config)
      <= st_slot anchorState /\
    (0 < SLOTS_PER_EPOCH (params config) ->
       st_slot anchorState
       < (computeEpochAtSlot config (st_slot anchorState) + 1)
         * SLOTS_PER_EPOCH (params config))).
  { split.
    - unfold computeEpochAtSlot. rewrite N.mul_comm. apply N.Div0.mul_div_le.
    - intros Hpos. by apply computeEpochAtSlot_contains. }
  unfold computeAnchorCheckpoint, GENESIS_SLOT, clone.
  destruct (h_slot (st_latestBlockHeader anchorState) =? 0) eqn:Hslot.
  - apply N.eqb_eq in Hslot. cbn [fst snd cp_root cp_epoch].
    split; [done|]. split; [by intros _|]. split; [intros Hne; by destruct Hne|].
    split; [done|]. exact Hepoch.
  - apply N.eqb_neq in Hslot. cbn [fst snd cp_root cp_epoch].
    split; [done|]. split; [intros Heq; by destruct Hslot|].
    split; [|split; [done|exact Hepoch]].
    intros _.
    destruct (Root_equals (h_stateRoot (st_latestBlockHeader anchorState)) ZERO_HASH)
      eqn:Hz.
    + apply Root_equals_true in Hz. repeat split; try done.
    + apply Root_equals_false in Hz. repeat split; try done.
Qed.

(** C4 (as stated) fails at a genesis state: the header that is hashed for
    the checkpoint root does not have a default body root.  Its body root is
    the hash of the default block body, which is not the zero root, so the
    header, and with it the checkpoint root, differ from those of a default
    header whose state root is the hash of the state. *)
Lemma computeAnchorCheckpoint_genesis_body_root_not_default :
  h_slot (st_latestBlockHeader wf_genesis_state) = GENESIS_SLOT /\
  h_bodyRoot (snd (computeAnchorCheckpoint wf_config wf_genesis_state)) <> ZERO_HASH /\
  snd (computeAnchorCheckpoint wf_config wf_genesis_state)
  <> {| h_slot := 0; h_proposerIndex := 0; h_parentRoot := ZERO_HASH;
        h_stateRoot := wf_state_hash wf_genesis_state; h_bodyRoot := ZERO_HASH |} /\
  cp_root (fst (computeAnchorCheckpoint wf_config wf_genesis_state))
  <> wf_header_hash
       {| h_slot := 0; h_proposerIndex := 0; h_parentRoot := ZERO_HASH;
          h_stateRoot := wf_state_hash wf_genesis_state; h_bodyRoot := ZERO_HASH |}.
Proof.
  split; [reflexivity|]. split; [|split]; vm_compute; discriminate.
Qed.

(** The three cases on roots of 32 bytes: the genesis header, the patched
    placeholder, and a state root that is kept. *)
Example computeAnchorCheckpoint_wf_examples :
  computeAnchorCheckpoint wf_config wf_genesis_state
  = ({| cp_root :=
          wf_header_hash
            {| h_slot := 0; h_proposerIndex := 0; h_parentRoot := ZERO_HASH;
               h_stateRoot := wf_state_hash wf_genesis_state;
               h_bodyRoot := wf_body_hash BeaconBlockBody_defaultValue |};
        cp_epoch := 0 |},
     {| h_slot := 0; h_proposerIndex := 0; h_parentRoot := ZERO_HASH;
        h_stateRoot := wf_state_hash wf_genesis_state;
        h_bodyRoot := wf_body_hash BeaconBlockBody_defaultValue |}) /\
  snd (computeAnchorCheckpoint wf_config wf_state)
  = {| h_slot := 64; h_proposerIndex := 1; h_parentRoot := pad32 [x11];
       h_stateRoot := wf_state_hash wf_state;
       h_bodyRoot := wf_body_hash BeaconBlockBody_defaultValue |} /\
  cp_epoch (fst (computeAnchorCheckpoint wf_config wf_state)) = 2 /\
  snd (computeAnchorCheckpoint wf_config wf_state_rooted)
  = st_latestBlockHeader wf_state_rooted.
Proof. repeat split. Qed.

Example computeAnchorCheckpoint_genesis_example :
  computeAnchorCheckpoint demo_config demo_genesis_state
  = ({| cp_root :=
          demo_header_hash
            {| h_slot := 0; h_proposerIndex := 0; h_parentRoot := ZERO_HASH;
               h_stateRoot := demo_state_hash demo_genesis_state;
               h_bodyRoot := demo_body_hash BeaconBlockBody_defaultValue |};
        cp_epoch := 0 |},
     {| h_slot := 0; h_proposerIndex := 0; h_parentRoot := ZERO_HASH;
        h_stateRoot := demo_state_hash demo_genesis_state;
        h_bodyRoot := demo_body_hash BeaconBlockBody_defaultValue |}).
Proof. reflexivity. Qed.

Example computeAnchorCheckpoint_patched_example :
  computeAnchorCheckpoint demo_config demo_state
  = ({| cp_root :=
          demo_header_hash (set_h_stateRoot (demo_state_hash demo_state) demo_header);
        cp_epoch := 2 |},
     set_h_stateRoot (demo_state_hash demo_state) demo_header).
Proof. reflexivity. Qed.

(* ===================================================================== *)
(** ** [restoreStateCaches] *)
(* ===================================================================== *)

(** C6. [restoreStateCaches] computes the anchor checkpoint of the state,
    builds one cached state from it (the state with its config and derived
    epoch context) and enters that one object in both caches: afterwards
    the root-indexed cache, asked for the state root, and the
    checkpoint-indexed cache, asked for the computed checkpoint, answer
    with the same reference, hence with states of identical content.  The
    object is new, and the objects that existed before are untouched. *)
Theorem restoreStateCaches_populates_both_caches createEpochContext config state w :
  let run := restoreStateCaches createEpochContext config state w in
  let checkpoint := fst (computeAnchorCheckpoint config state) in
  let root := hashTreeRoot (BeaconStateT (getTypes config (st_slot state))) state in
  let cached := {| cs_config := config;
                   cs_epochCtx := createEpochContext config state;
                   cs_state := state |} in
  fst run = inr tt /\
  (exists item,
     cw_heap w !! item = None /\
     cw_heap (snd run) = <[item := cached]> (cw_heap w) /\
     cw_stateCache (snd run) = <[root := item]> (cw_stateCache w) /\
     cw_checkpointStateCache (snd run)
       = <[checkpoint := item]> (cw_checkpointStateCache w)) /\
  stateCache_get (snd run) root = Some cached /\
  checkpointStateCache_get (snd run) checkpoint = Some cached.
Proof.
  cbv zeta. unfold restoreStateCaches.
  destruct (computeAnchorCheckpoint config state) as [checkpoint header] eqn:Hcp.
  cbn [fst].
  set (cached := {| cs_config := config;
                    cs_epochCtx := createEpochContext config state;
                    cs_state := state |}).
  set (item := fresh (dom (cw_heap w))).
  assert (Hfresh : cw_heap w !! item = None).
  { apply not_elem_of_dom. apply is_fresh. }
  unfold createCachedBeaconState. fold cached.
  erewrite bind_inr by (unfold alloc_cached; reflexivity).
  fold item.
  erewrite bind_inr; cycle 1.
  { unfold stateCache_add. cbn [cw_heap]. rewrite lookup_insert_eq. reflexivity. }
  unfold checkpointStateCache_add, modify.
  cbn [fst snd cw_heap cw_stateCache cw_checkpointStateCache].
  change (stateRoot_of cached)
    with (hashTreeRoot (BeaconStateT (getTypes config (st_slot state))) state).
  split; [done|]. split.
  - exists item. done.
  - unfold stateCache_get, checkpointStateCache_get.
    cbn [cw_heap cw_stateCache cw_checkpointStateCache].
    rewrite !lookup_insert_eq. cbn. by rewrite lookup_insert_eq.
Qed.

Example restoreStateCaches_example :
  let w := snd (restoreStateCaches demo_createEpochContext demo_config demo_state
                  {| cw_heap := ∅; cw_stateCache := ∅; cw_checkpointStateCache := ∅ |}) in
  stateCache_get w (demo_state_hash demo_state) = Some demo_cached /\
  checkpointStateCache_get w (fst (computeAnchorCheckpoint demo_config demo_state))
    = Some demo_cached.
Proof. cbv zeta. split; vm_compute; reflexivity. Qed.

(* ===================================================================== *)
(** ** [initStateFromDb] *)
(* ===================================================================== *)

Lemma last_None_nil {A} (xs : list A) : last xs = None <-> xs = [].
Proof. apply last_None. Qed.

(** C9. [initStateFromDb] returns the most recently archived state, and
    it throws the error saying that no state exists in the database exactly
    when the state archive is empty; it throws nothing else, a throw
    returns no state and leaves storage and log as they were, and a return
    leaves the archives as they were. *)
Theorem initStateFromDb_last_or_error config w :
  let run := initStateFromDb config w in
  (forall state, fst run = inr state <-> last (db_stateArchive w) = Some state) /\
  (fst run = inl (Error "No state exists in database") <-> db_stateArchive w = []) /\
  (forall e, fst run = inl e -> e = Error "No state exists in database" /\ snd run = w) /\
  db_stateArchive (snd run) = db_stateArchive w /\
  db_blockArchive (snd run) = db_blockArchive w.
Proof.
  cbv zeta. unfold initStateFromDb.
  erewrite bind_inr by (unfold stateArchive_lastValue, gets; reflexivity).
  destruct (last (db_stateArchive w)) as [state|] eqn:Hlast.
  - assert (Hne : db_stateArchive w <> []).
    { intros Hnil. rewrite Hnil in Hlast. discriminate. }
    unfold bind, logger_info, modify, ret. cbn [fst snd db_stateArchive db_blockArchive].
    split; [|split; [|split]].
    + intros state'. split; congruence.
    + split; [discriminate|done].
    + intros e; discriminate.
    + done.
  - apply last_None_nil in Hlast. unfold throw. cbn [fst snd].
    split; [|split; [|split]].
    + intros state'. split; discriminate.
    + done.
    + intros e [= <-]. done.
    + done.
Qed.

(** A state persisted as anchor state is the one [initStateFromDb] loads
    next, whatever the archive held before. *)
Lemma initStateFromDb_after_persistAnchorState config anchorState w :
  fst (bind (persistAnchorState config anchorState)
            (fun _ => initStateFromDb config) w)
  = inr anchorState.
Proof.
  assert (Hlast : forall xs, last (xs ++ [anchorState]) = Some anchorState)
    by (intros xs; apply last_snoc).
  unfold persistAnchorState.
  destruct (st_slot anchorState =? GENESIS_SLOT);
    unfold bind, blockArchive_add, stateArchive_add, modify, initStateFromDb, bind,
      stateArchive_lastValue, gets;
    cbn [db_stateArchive db_blockArchive db_log]; by rewrite Hlast.
Qed.

Example initStateFromDb_after_persist_example :
  fst (bind (persistAnchorState demo_config demo_genesis_state)
            (fun _ => initStateFromDb demo_config)
            {| db_stateArchive := []; db_blockArchive := []; db_log := [] |})
  = inr demo_genesis_state.
Proof. reflexivity. Qed.

(* ===================================================================== *)
(** ** [getVoluntaryExitSignatureSet] *)
(* ===================================================================== *)

Lemma computeStartSlotAtEpoch_first config epoch :
  0 < SLOTS_PER_EPOCH (params config) ->
  computeEpochAtSlot config (computeStartSlotAtEpoch config epoch) = epoch /\
  (forall slot, computeEpochAtSlot config slot = epoch ->
     computeStartSlotAtEpoch config epoch <= slot).
Proof.
  intros Hpos. unfold computeEpochAtSlot, computeStartSlotAtEpoch. split.
  - apply N.div_mul. lia.
  - intros slot <-. rewrite N.mul_comm. apply N.Div0.mul_div_le.
Qed.

(** C8. [getVoluntaryExitSignatureSet] is a function of the state and the
    signed exit alone (no store is read or written).  It yields a set of
    the single kind; its domain is the one of the start slot of the epoch
    named in the exit message, which is the first slot of that epoch; its
    public key is the entry of the index-to-pubkey table of the state at
    the validator index of the exit (present exactly when the index is
    inside the table); its signing root is computed from the exit message
    under that domain; its signature is the one of the signed exit. *)
Theorem getVoluntaryExitSignatureSet_components
    getDomain computeSigningRoot state signedVoluntaryExit :
  let config := cs_config state in
  let exit := sve_message signedVoluntaryExit in
  let slot := computeStartSlotAtEpoch config (ve_epoch exit) in
  let domain := getDomain (cs_state state) (DOMAIN_VOLUNTARY_EXIT (params config)) slot in
  let table := index2pubkey (cs_epochCtx state) in
  getVoluntaryExitSignatureSet getDomain computeSigningRoot state signedVoluntaryExit
  = SignatureSet_single
      (table !! N.to_nat (ve_validatorIndex exit))
      (computeSigningRoot VoluntaryExit config (types_phase0_VoluntaryExit config)
         exit domain)
      (sve_signature signedVoluntaryExit) /\
  (0 < SLOTS_PER_EPOCH (params config) ->
     computeEpochAtSlot config slot = ve_epoch exit /\
     forall slot', computeEpochAtSlot config slot' = ve_epoch exit -> slot <= slot') /\
  (is_Some (table !! N.to_nat (ve_validatorIndex exit))
     <-> ve_validatorIndex exit < N.of_nat (length table)).
Proof.
  cbv zeta. split; [reflexivity|]. split.
  - apply computeStartSlotAtEpoch_first.
  - rewrite lookup_lt_is_Some. lia.
Qed.

Example getVoluntaryExitSignatureSet_example :
  getVoluntaryExitSignatureSet
    (fun _ domainType slot => domainType ++ [byte_of_N slot])
    (fun T _ type object domain => hashTreeRoot type object ++ domain)
    demo_cached
    {| sve_message := {| ve_epoch := 3; ve_validatorIndex := 1 |};
       sve_signature := [x99] |}
  = SignatureSet_single (Some [x02])
      [x03; x01; x04; x00; x00; x00; x60] [x99].
Proof. reflexivity. Qed.

(* ===================================================================== *)
(** ** [processBlock] *)
(* ===================================================================== *)

Lemma bind_call_stage {B} c l eff (k : unit -> M StateWorld B) w s :
  sw_states w !! l = Some s ->
  bind (call_stage c l eff) k w
  = match eff s with
    | (Some e, s') =>
        (inl e, {| sw_states := <[l := s']> (sw_states w);
                   sw_calls := sw_calls w ++ [c] |})
    | (None, s') =>
        k tt {| sw_states := <[l := s']> (sw_states w);
                sw_calls := sw_calls w ++ [c] |}
    end.
Proof.
  intros Hs. unfold bind, call_stage. rewrite Hs.
  by destruct (eff s) as [[e|] s'].
Qed.

Lemma call_stage_alone c l eff w s :
  sw_states w !! l = Some s ->
  call_stage c l eff w
  = (outcome (eff s).1, {| sw_states := <[l := (eff s).2]> (sw_states w);
                           sw_calls := sw_calls w ++ [c] |}).
Proof.
  intros Hs. unfold call_stage. rewrite Hs.
  by destruct (eff s) as [[e|] s'].
Qed.

(** One stage of the sequence: rewrite the call, then split on whether the
    stage threw. *)
Ltac stage_step :=
  erewrite bind_call_stage by (first [eassumption | apply lookup_insert_eq]);
  cbn [sw_states sw_calls];
  match goal with
  | |- context [match ?eff ?s with _ => _ end] =>
      let e := fresh "e" in
      let s' := fresh "s" in
      destruct (eff s) as [[e|] s'];
      cbn [fst snd outcome];
      rewrite ?insert_insert_eq, <- ?app_assoc;
      [reflexivity|]
  end.

Section BlockProcessingFacts.

Variable processBlockHeader_effect : BeaconBlock -> bool -> StageEffect.
Variable processRandao_effect : BeaconBlockBody -> StageEffect.
Variable processEth1Data_effect : BeaconBlockBody -> StageEffect.
Variable processOperations_effect : BeaconBlockBody -> StageEffect.
Variable hashTreeRoot_BeaconState : BeaconState -> list byte.

Local Abbreviation processBlock' :=
  (processBlock processBlockHeader_effect processRandao_effect processEth1Data_effect
                processOperations_effect hashTreeRoot_BeaconState).
Local Abbreviation stages :=
  (block_stages processBlockHeader_effect processRandao_effect processEth1Data_effect
                processOperations_effect hashTreeRoot_BeaconState).
Local Abbreviation four :=
  (main_stages processBlockHeader_effect processRandao_effect processEth1Data_effect
               processOperations_effect).

(** The complete run of [processBlock] on the object behind [state]. *)
Lemma processBlock_run state block verify w s :
  sw_states w !! state = Some s ->
  processBlock' state block verify w
  = (outcome (run_stages (stages block verify) s).1.1,
     {| sw_states := <[state := (run_stages (stages block verify) s).1.2]> (sw_states w);
        sw_calls := sw_calls w ++ (run_stages (stages block verify) s).2 |}).
Proof.
  intros Hs.
  unfold processBlock, block_stages, main_stages, processBlockHeader, processRandao,
    processEth1Data, processOperations, verifyBlockStateRoot.
  cbn [app run_stages].
  do 4 stage_step.
  destruct verify; cbn [app run_stages].
  - erewrite call_stage_alone by apply lookup_insert_eq.
    cbn [sw_states sw_calls].
    destruct (verifyBlockStateRoot_effect _ _ _) as [[e|] s'];
      cbn [fst snd outcome]; rewrite ?insert_insert_eq, <- ?app_assoc; reflexivity.
  - unfold ret. cbn [fst snd outcome]. reflexivity.
Qed.

Lemma run_stages_prefix (l : list (StageCall * StageEffect)) s :
  (run_stages l s).2 `prefix_of` l.*1 /\
  ((run_stages l s).1.1 = None -> (run_stages l s).2 = l.*1).
Proof.
  revert s. induction l as [|[c eff] l IH]; intros s; cbn [run_stages fmap list_fmap].
  - split; [done|done].
  - destruct (eff s) as [[e|] s'].
    + cbn [fst snd]. split; [|done]. by exists l.*1.
    + destruct (IH s') as [Hp Hall].
      destruct (run_stages l s') as [[r s''] cs]. cbn [fst snd] in *.
      split; [by apply prefix_cons|]. intros Hr. by rewrite (Hall Hr).
Qed.

Lemma run_stages_app (l1 l2 : list (StageCall * StageEffect)) s :
  run_stages (l1 ++ l2) s
  = match run_stages l1 s with
    | (Some e, s', cs) => (Some e, s', cs)
    | (None, s', cs) =>
        ((run_stages l2 s').1.1, (run_stages l2 s').1.2, cs ++ (run_stages l2 s').2)
    end.
Proof.
  revert s. induction l1 as [|[c eff] l1 IH]; intros s; cbn [app run_stages].
  - by destruct (run_stages l2 s) as [[r s'] cs].
  - destruct (eff s) as [[e|] s']; [done|].
    rewrite IH. destruct (run_stages l1 s') as [[[e|] s''] cs]; [done|].
    by destruct (run_stages l2 s'') as [[r s3] cs'].
Qed.

(** C5. [processBlock] enters its stages in one fixed order: block
    header, randao, eth1 data, operations, and last, only when [verify] is
    set, the state-root check.  The stages entered by a call are a prefix of
    that order (a stage that throws ends the call) and all of it when the
    call returns.  With [verify] unset the state-root check is not entered:
    the call is the run of the four stages and nothing else.  With [verify]
    set, once the four stages have run, the call returns exactly when the
    state root declared by the block is the hash of the state the stages
    left behind, and throws otherwise. *)
Theorem processBlock_stage_order state block verify w s :
  sw_states w !! state = Some s ->
  let run := processBlock' state block verify w in
  let order :=
    [CallProcessBlockHeader; CallProcessRandao; CallProcessEth1Data;
     CallProcessOperations]
    ++ (if verify then [CallVerifyBlockStateRoot] else []) in
  (exists entered,
     sw_calls (snd run) = sw_calls w ++ entered /\
     entered `prefix_of` order /\
     (fst run = inr tt -> entered = order) /\
     (verify = false -> CallVerifyBlockStateRoot ∉ entered)) /\
  (verify = false ->
     run = (outcome (run_stages (four block false) s).1.1,
            {| sw_states := <[state := (run_stages (four block false) s).1.2]> (sw_states w);
               sw_calls := sw_calls w ++ (run_stages (four block false) s).2 |})) /\
  (verify = true ->
     forall s4 cs,
       run_stages (four block true) s = (None, s4, cs) ->
       sw_states (snd run) !! state = Some s4 /\
       sw_calls (snd run) = sw_calls w ++ order /\
       (fst run = inr tt <-> b_stateRoot block = hashTreeRoot_BeaconState s4) /\
       (b_stateRoot block <> hashTreeRoot_BeaconState s4 ->
          fst run = inl (Error "Invalid state root"))).
Proof.
  intros Hs run order. subst run.
  rewrite (processBlock_run _ _ _ _ _ Hs).
  cbn [fst snd sw_calls sw_states].
  assert (Horder : (stages block verify).*1 = order).
  { subst order. unfold block_stages. by destruct verify. }
  destruct (run_stages_prefix (stages block verify) s) as [Hpre Hall].
  rewrite Horder in Hpre, Hall.
  split; [|split].
  - exists (run_stages (stages block verify) s).2.
    split; [done|]. split; [done|]. split.
    + intros Hok. apply Hall.
      by destruct ((run_stages (stages block verify) s).1.1).
    + intros -> Hin. destruct Hpre as [rest Hrest].
      assert (Hin' : CallVerifyBlockStateRoot ∈ order).
      { rewrite Hrest. apply elem_of_app. by left. }
      subst order. cbn [app] in Hin'.
      rewrite !elem_of_cons, elem_of_nil in Hin'.
      destruct Hin' as [?|[?|[?|[?|[]]]]]; discriminate.
  - intros ->. unfold block_stages. by rewrite app_nil_r.
  - intros -> s4 cs Hfour. unfold block_stages.
    rewrite run_stages_app, Hfour. cbn [run_stages fst snd].
    rewrite lookup_insert_eq.
    pose proof (run_stages_prefix (four block true) s) as [_ Hcs].
    rewrite Hfour in Hcs. cbn [fst snd] in Hcs. rewrite (Hcs eq_refl).
    unfold verifyBlockStateRoot_effect.
    destruct (Root_equals (b_stateRoot block) (hashTreeRoot_BeaconState s4)) eqn:Heq;
      cbn [fst snd outcome].
    + apply Root_equals_true in Heq. done.
    + apply Root_equals_false in Heq.
      split; [done|]. split; [done|]. split; [|done]. split; [discriminate|done].
Qed.

(** C2 (as amended). [processBlock] hands back no state: its value is
    [undefined], and what it computes it writes into the state object it was
    given.  After the call, returned or thrown, the object behind the
    argument holds what the stages that ran left in it, every other state
    object is as before, and the argument is structurally what it was only
    when the stages left it so. *)
Theorem processBlock_updates_argument_in_place state block verify w s :
  sw_states w !! state = Some s ->
  let run := processBlock' state block verify w in
  let result := run_stages (stages block verify) s in
  fst run = outcome result.1.1 /\
  sw_states (snd run) = <[state := result.1.2]> (sw_states w) /\
  (forall other, other <> state -> sw_states (snd run) !! other = sw_states w !! other) /\
  (sw_states (snd run) !! state = Some s <-> result.1.2 = s).
Proof.
  intros Hs run result. subst run result.
  rewrite (processBlock_run _ _ _ _ _ Hs). cbn [fst snd sw_states].
  split; [done|]. split; [done|]. split.
  - intros other Hne. by rewrite lookup_insert_ne.
  - rewrite lookup_insert_eq. split; congruence.
Qed.

End BlockProcessingFacts.

Lemma processBlock_stage_order_witness :
  sw_calls
    (snd (processBlock (spec_processBlockHeader_effect demo_config) demo_stage_noop
            demo_stage_noop demo_stage_noop demo_state_hash
            0%nat demo_block true demo_state_world))
  = [CallProcessBlockHeader; CallProcessRandao; CallProcessEth1Data;
     CallProcessOperations; CallVerifyBlockStateRoot]
  /\ fst (processBlock (spec_processBlockHeader_effect demo_config) demo_stage_noop
            demo_stage_noop demo_stage_noop demo_state_hash
            0%nat demo_block true demo_state_world)
     = inl (Error "Invalid state root").
Proof.
  pose proof (processBlock_stage_order
                (spec_processBlockHeader_effect demo_config) demo_stage_noop
                demo_stage_noop demo_stage_noop demo_state_hash
                0%nat demo_block true demo_state_world demo_state eq_refl) as H.
  cbv zeta in H. destruct H as (_ & _ & H).
  destruct (H eq_refl _ _ eq_refl) as (_ & Hcalls & _ & Hthrow).
  split; [exact Hcalls|]. apply Hthrow. vm_compute. discriminate.
Defined.

Lemma processBlock_updates_argument_in_place_witness :
  sw_states
    (snd (processBlock (spec_processBlockHeader_effect demo_config) demo_stage_noop
            demo_stage_noop demo_stage_noop demo_state_hash
            0%nat demo_block false demo_state_world))
  = <[0%nat :=
        set_st_latestBlockHeader
          (set_h_stateRoot ZERO_HASH (blockToHeader demo_config demo_block))
          demo_state]> {[ 0%nat := demo_state ]}.
Proof.
  exact (proj1 (proj2 (processBlock_updates_argument_in_place
                         (spec_processBlockHeader_effect demo_config) demo_stage_noop
                         demo_stage_noop demo_stage_noop demo_state_hash
                         0%nat demo_block false demo_state_world demo_state eq_refl))).
Defined.

(** C2 (as stated) fails: the header stage stores the header of the block
    in the state, so after a call that returned, the state object handed to
    [processBlock] no longer has the content it had before the call. *)
Lemma processBlock_changes_input_state :
  sw_states demo_state_world !! 0%nat = Some demo_state /\
  fst (processBlock (spec_processBlockHeader_effect demo_config) demo_stage_noop
         demo_stage_noop demo_stage_noop demo_state_hash
         0%nat demo_block false demo_state_world)
  = inr tt /\
  sw_states
    (snd (processBlock (spec_processBlockHeader_effect demo_config) demo_stage_noop
            demo_stage_noop demo_stage_noop demo_state_hash
            0%nat demo_block false demo_state_world)) !! 0%nat
  <> Some demo_state.
Proof.
  split; [reflexivity|]. split; [reflexivity|].
  vm_compute. discriminate.
Qed.

(* ===================================================================== *)
(** ** More on [verifyBlocks] *)
(* ===================================================================== *)

Lemma forallb_rev {A} (f : A -> bool) (xs : list A) :
  forallb f (rev xs) = forallb f xs.
Proof.
  induction xs as [|x xs IH]; [done|].
  cbn [rev forallb]. rewrite forallb_app, IH. cbn [forallb].
  rewrite andb_true_r. apply andb_comm.
Qed.

Lemma link_ok_all config anchorRoot (bs : list SignedBeaconBlock) :
  forallb (link_ok config anchorRoot) bs = true <->
  forall b, b ∈ bs ->
    hashTreeRoot (BeaconBlockT (getForkTypes config (b_slot (sb_message b))))
                 (sb_message b) = anchorRoot.
Proof.
  rewrite forallb_forall. split.
  - intros H b Hb. apply Root_equals_true. apply H. by apply list_elem_of_In.
  - intros H b Hb. apply Root_equals_true. apply H. by apply list_elem_of_In.
Qed.

(** [verifyBlocks] returns exactly when the array is empty, or every block
    of it hashes to [anchorRoot] and the batch verifier accepts the
    signature sets of the blocks taken last to first. *)
Lemma verifyBlocks_returns_iff
    getProposerSignatureSet config bls state blocks anchorRoot w bs :
  bw_arrays w !! blocks = Some bs ->
  fst (verifyBlocks getProposerSignatureSet config bls state blocks anchorRoot w)
    = inr tt
  <-> bs = [] \/
      ((forall b, b ∈ bs ->
          hashTreeRoot (BeaconBlockT (getForkTypes config (b_slot (sb_message b))))
                       (sb_message b) = anchorRoot) /\
       bls_answer bls (map (getProposerSignatureSet state) (rev bs)) = true).
Proof.
  intros Hbs. rewrite (verifyBlocks_run _ _ _ _ _ _ _ _ Hbs).
  rewrite <- link_ok_all, <- (forallb_rev _ bs).
  destruct bs as [|b bs']; [by split; [left|]|]. cbv zeta.
  destruct (forallb (link_ok config anchorRoot) (rev (b :: bs'))) eqn:Hall;
    cbn [fst].
  - destruct (bls_answer bls _) eqn:Hans.
    + split; [by right|done].
    + split; [discriminate|]. intros [?|[_ ?]]; discriminate.
  - split; [discriminate|]. intros [?|[? _]]; discriminate.
Qed.

Lemma verifyBlocks_returns_iff_witness :
  fst (verifyBlocks demo_getProposerSignatureSet demo_config demo_bls_accept demo_cached
                    0%nat demo_anchorRoot (demo_backfill_world [demo_new]))
  = inr tt.
Proof.
  apply (verifyBlocks_returns_iff
           demo_getProposerSignatureSet demo_config demo_bls_accept demo_cached
           0%nat demo_anchorRoot (demo_backfill_world [demo_new]) [demo_new] eq_refl).
  right. split; [|reflexivity].
  intros b Hb. apply list_elem_of_singleton in Hb. subst b. reflexivity.
Defined.

(** An array holding two blocks whose messages hash differently is never
    accepted: the call ends with [NOT_ANCHORED], whatever the anchor root
    and however the blocks are linked. *)
Lemma verifyBlocks_rejects_distinct_hashes
    getProposerSignatureSet config bls state blocks anchorRoot w bs b1 b2 :
  bw_arrays w !! blocks = Some bs ->
  b1 ∈ bs -> b2 ∈ bs ->
  hashTreeRoot (BeaconBlockT (getForkTypes config (b_slot (sb_message b1))))
               (sb_message b1)
  <> hashTreeRoot (BeaconBlockT (getForkTypes config (b_slot (sb_message b2))))
                  (sb_message b2) ->
  fst (verifyBlocks getProposerSignatureSet config bls state blocks anchorRoot w)
  = inl (BackfillSyncError NOT_ANCHORED).
Proof.
  intros Hbs H1 H2 Hne.
  rewrite (verifyBlocks_run _ _ _ _ _ _ _ _ Hbs).
  destruct bs as [|b bs']; [by apply elem_of_nil in H1|]. cbv zeta.
  destruct (forallb (link_ok config anchorRoot) (rev (b :: bs'))) eqn:Hall; [|done].
  rewrite forallb_rev in Hall. pose proof (proj1 (link_ok_all _ _ _) Hall) as Hsame.
  destruct Hne. by rewrite (Hsame b1 H1), (Hsame b2 H2).
Qed.

Lemma verifyBlocks_rejects_distinct_hashes_witness :
  fst (verifyBlocks demo_getProposerSignatureSet demo_config demo_bls_accept demo_cached
                    0%nat demo_anchorRoot (demo_backfill_world [demo_old; demo_new]))
  = inl (BackfillSyncError NOT_ANCHORED).
Proof.
  apply (verifyBlocks_rejects_distinct_hashes
           demo_getProposerSignatureSet demo_config demo_bls_accept demo_cached
           0%nat demo_anchorRoot (demo_backfill_world [demo_old; demo_new])
           [demo_old; demo_new] demo_old demo_new eq_refl).
  - apply list_elem_of_here.
  - apply list_elem_of_further, list_elem_of_here.
  - vm_compute. discriminate.
Defined.

(** The call keeps the elements of the array (it only reorders them) and
    touches no other array of the store. *)
Lemma verifyBlocks_array_frame
    getProposerSignatureSet config bls state blocks anchorRoot w bs :
  bw_arrays w !! blocks = Some bs ->
  let w' := snd (verifyBlocks getProposerSignatureSet config bls state blocks
                              anchorRoot w) in
  bw_arrays w' !! blocks = Some (rev bs) /\
  rev bs ≡ₚ bs /\
  (forall other, other <> blocks -> bw_arrays w' !! other = bw_arrays w !! other).
Proof.
  intros Hbs w'. subst w'. rewrite (verifyBlocks_run _ _ _ _ _ _ _ _ Hbs).
  split; [|split].
  - destruct bs as [|b bs']; [done|]. cbv zeta.
    destruct (forallb _ _); cbn [snd bw_arrays]; apply lookup_insert_eq.
  - symmetry. apply Permutation_rev.
  - intros other Hne. destruct bs as [|b bs']; [done|]. cbv zeta.
    destruct (forallb _ _); cbn [snd bw_arrays]; by rewrite lookup_insert_ne.
Qed.

Lemma verifyBlocks_array_frame_witness :
  bw_arrays
    (snd (verifyBlocks demo_getProposerSignatureSet demo_config demo_bls_accept
                       demo_cached 0%nat demo_anchorRoot
                       (demo_backfill_world [demo_old; demo_new]))) !! 0%nat
  = Some [demo_new; demo_old].
Proof.
  exact (proj1 (verifyBlocks_array_frame
                  demo_getProposerSignatureSet demo_config demo_bls_accept demo_cached
                  0%nat demo_anchorRoot (demo_backfill_world [demo_old; demo_new])
                  [demo_old; demo_new] eq_refl)).
Defined.

(** Two calls on the same array, whatever their outcomes, anchors and
    verifiers, leave the array in the order it had before the first. *)
Lemma verifyBlocks_twice_restores_order
    getProposerSignatureSet config bls1 bls2 state blocks anchor1 anchor2 w bs :
  bw_arrays w !! blocks = Some bs ->
  bw_arrays
    (snd (verifyBlocks getProposerSignatureSet config bls2 state blocks anchor2
            (snd (verifyBlocks getProposerSignatureSet config bls1 state blocks
                    anchor1 w))))
  = bw_arrays w.
Proof.
  intros Hbs.
  destruct (verifyBlocks_array_frame getProposerSignatureSet config bls1 state
              blocks anchor1 w bs Hbs) as (H1 & _ & Hf1).
  destruct (verifyBlocks_array_frame getProposerSignatureSet config bls2 state
              blocks anchor2 _ _ H1) as (H2 & _ & Hf2).
  rewrite rev_involutive in H2.
  apply map_eq. intros l. destruct (decide (l = blocks)) as [->|Hne].
  - by rewrite H2.
  - by rewrite (Hf2 l Hne), (Hf1 l Hne).
Qed.

Lemma verifyBlocks_twice_restores_order_witness :
  bw_arrays
    (snd (verifyBlocks demo_getProposerSignatureSet demo_config demo_bls_reject
            demo_cached 0%nat [x00]
            (snd (verifyBlocks demo_getProposerSignatureSet demo_config
                    demo_bls_accept demo_cached 0%nat demo_anchorRoot
                    (demo_backfill_world [demo_old; demo_new])))))
  = {[ 0%nat := [demo_old; demo_new] ]}.
Proof.
  exact (verifyBlocks_twice_restores_order
           demo_getProposerSignatureSet demo_config demo_bls_accept demo_bls_reject
           demo_cached 0%nat demo_anchorRoot [x00]
           (demo_backfill_world [demo_old; demo_new]) [demo_old; demo_new] eq_refl).
Defined.

(** The block compared first is the last element of the array as it was
    supplied: when that block does not hash to [anchorRoot], the call ends
    with [NOT_ANCHORED] after this one comparison, and no other block is
    looked at. *)
Lemma verifyBlocks_first_check_is_last_element
    getProposerSignatureSet config bls state blocks anchorRoot w bs b :
  bw_arrays w !! blocks = Some bs ->
  last bs = Some b ->
  link_ok config anchorRoot b = false ->
  verifyBlocks getProposerSignatureSet config bls state blocks anchorRoot w
  = (inl (BackfillSyncError NOT_ANCHORED),
     {| bw_arrays := <[blocks := rev bs]> (bw_arrays w);
        bw_trace := bw_trace w ++ [EvLinkCheck b] |}).
Proof.
  intros Hbs Hlast Hbad. rewrite (verifyBlocks_run _ _ _ _ _ _ _ _ Hbs).
  apply last_Some in Hlast as [front ->].
  destruct (front ++ [b]) as [|x xs] eqn:Hshape.
  { by destruct front. }
  rewrite <- Hshape. cbv zeta. rewrite rev_app_distr. cbn [rev app forallb examined].
  by rewrite Hbad.
Qed.

Lemma verifyBlocks_first_check_is_last_element_witness :
  bw_trace
    (snd (verifyBlocks demo_getProposerSignatureSet demo_config demo_bls_accept
            demo_cached 0%nat demo_anchorRoot
            (demo_backfill_world [demo_new; demo_old])))
  = [EvLinkCheck demo_old].
Proof.
  rewrite (verifyBlocks_first_check_is_last_element
             demo_getProposerSignatureSet demo_config demo_bls_accept demo_cached
             0%nat demo_anchorRoot (demo_backfill_world [demo_new; demo_old])
             [demo_new; demo_old] demo_old eq_refl eq_refl eq_refl).
  reflexivity.
Defined.

(* ===================================================================== *)
(** ** More on [processBlock] *)
(* ===================================================================== *)

Section BlockProcessingMore.

Variable processBlockHeader_effect : BeaconBlock -> bool -> StageEffect.
Variable processRandao_effect : BeaconBlockBody -> StageEffect.
Variable processEth1Data_effect : BeaconBlockBody -> StageEffect.
Variable processOperations_effect : BeaconBlockBody -> StageEffect.
Variable hashTreeRoot_BeaconState : BeaconState -> list byte.

Local Abbreviation run_block :=
  (processBlock processBlockHeader_effect processRandao_effect processEth1Data_effect
                processOperations_effect hashTreeRoot_BeaconState).

(** Nothing is rolled back when a stage throws: if the header stage went
    through and the randao stage throws, the call throws the exception of
    the randao stage, the later stages are not entered, and the state object
    holds what the header stage and the randao stage wrote. *)
Lemma processBlock_throw_keeps_writes state block verify w s s1 e s2 :
  sw_states w !! state = Some s ->
  processBlockHeader_effect block verify s = (None, s1) ->
  processRandao_effect (b_body block) s1 = (Some e, s2) ->
  processBlock processBlockHeader_effect processRandao_effect processEth1Data_effect
    processOperations_effect hashTreeRoot_BeaconState state block verify w
  = (inl e, {| sw_states := <[state := s2]> (sw_states w);
               sw_calls := sw_calls w ++ [CallProcessBlockHeader; CallProcessRandao] |}).
Proof.
  intros Hs H1 H2.
  rewrite (processBlock_run _ _ _ _ _ _ _ _ _ _ Hs).
  unfold block_stages, main_stages. cbn [app run_stages].
  rewrite H1, H2. reflexivity.
Qed.

(** The state-root check changes nothing in the state: when the header
    stage does not look at the flag, a call with [verify] set that returns
    leaves the state object exactly as the call with [verify] unset does,
    and that call returns too. *)
Lemma processBlock_verify_agrees state block w s :
  sw_states w !! state = Some s ->
  processBlockHeader_effect block true s = processBlockHeader_effect block false s ->
  fst (run_block state block true w) = inr tt ->
  fst (processBlock processBlockHeader_effect processRandao_effect processEth1Data_effect
    processOperations_effect hashTreeRoot_BeaconState
         state block false w) = inr tt /\
  sw_states (snd (run_block state block false w))
  = sw_states (snd (run_block state block true w)).
Proof.
  intros Hs Hflag.
  rewrite !(processBlock_run _ _ _ _ _ _ _ _ _ _ Hs).
  unfold block_stages, main_stages. cbn [app run_stages]. rewrite Hflag.
  destruct (processBlockHeader_effect block false s) as [[e1|] s1];
    [discriminate|].
  destruct (processRandao_effect (b_body block) s1) as [[e2|] s2];
    [discriminate|].
  destruct (processEth1Data_effect (b_body block) s2) as [[e3|] s3];
    [discriminate|].
  destruct (processOperations_effect (b_body block) s3) as [[e4|] s4];
    [discriminate|].
  unfold verifyBlockStateRoot_effect.
  destruct (Root_equals (b_stateRoot block) (hashTreeRoot_BeaconState s4));
    cbn [fst snd outcome sw_states]; [done|discriminate].
Qed.

End BlockProcessingMore.

Lemma processBlock_throw_keeps_writes_witness :
  processBlock (spec_processBlockHeader_effect demo_config) demo_randao_throw
    demo_stage_noop demo_stage_noop demo_state_hash
    0%nat demo_block true demo_state_world
  = (inl (Error "Invalid randao"),
     {| sw_states :=
          <[0%nat :=
              set_st_latestBlockHeader
                (set_h_stateRoot ZERO_HASH (blockToHeader demo_config demo_block))
                demo_state]> {[ 0%nat := demo_state ]};
        sw_calls := [CallProcessBlockHeader; CallProcessRandao] |}).
Proof.
  exact (processBlock_throw_keeps_writes
           (spec_processBlockHeader_effect demo_config) demo_randao_throw
           demo_stage_noop demo_stage_noop demo_state_hash
           0%nat demo_block true demo_state_world demo_state _ _ _
           eq_refl eq_refl eq_refl).
Defined.

Lemma processBlock_verify_agrees_witness :
  fst (processBlock (spec_processBlockHeader_effect demo_config) demo_stage_noop
         demo_stage_noop demo_stage_noop demo_state_hash
         0%nat demo_block_rooted false demo_state_world)
  = inr tt /\
  sw_states
    (snd (processBlock (spec_processBlockHeader_effect demo_config) demo_stage_noop
            demo_stage_noop demo_stage_noop demo_state_hash
            0%nat demo_block_rooted false demo_state_world))
  = sw_states
      (snd (processBlock (spec_processBlockHeader_effect demo_config) demo_stage_noop
              demo_stage_noop demo_stage_noop demo_state_hash
              0%nat demo_block_rooted true demo_state_world)).
Proof.
  exact (processBlock_verify_agrees
           (spec_processBlockHeader_effect demo_config) demo_stage_noop
           demo_stage_noop demo_stage_noop demo_state_hash
           0%nat demo_block_rooted demo_state_world demo_state
           eq_refl eq_refl eq_refl).
Defined.

(* ===================================================================== *)
(** ** More on [computeAnchorCheckpoint] and the genesis block *)
(* ===================================================================== *)

(** For a state at the genesis slot whose embedded header has the genesis
    slot, the header [computeAnchorCheckpoint] returns is the header of the
    genesis block [createGenesisBlock] builds for that state, the checkpoint
    root is the hash of that header, and the checkpoint epoch is 0: the
    anchor checkpoint names the block that [persistAnchorState] archives. *)
Lemma computeAnchorCheckpoint_names_genesis_block config anchorState :
  st_slot anchorState = GENESIS_SLOT ->
  h_slot (st_latestBlockHeader anchorState) = GENESIS_SLOT ->
  let genesisHeader :=
    blockToHeader config (sb_message (createGenesisBlock config anchorState)) in
  computeAnchorCheckpoint config anchorState
  = ({| cp_root :=
          hashTreeRoot (BeaconBlockHeaderT (getTypes config GENESIS_SLOT)) genesisHeader;
        cp_epoch := 0 |},
     genesisHeader).
Proof.
  intros Hslot Hheader. cbv zeta.
  unfold computeAnchorCheckpoint, createGenesisBlock, computeEpochAtSlot.
  rewrite Hheader, Hslot. unfold GENESIS_SLOT. cbn [N.eqb].
  by rewrite N.Div0.div_0_l.
Qed.

Lemma computeAnchorCheckpoint_names_genesis_block_witness :
  snd (computeAnchorCheckpoint demo_config demo_genesis_state)
  = blockToHeader demo_config
      (sb_message (createGenesisBlock demo_config demo_genesis_state)).
Proof.
  rewrite (computeAnchorCheckpoint_names_genesis_block
             demo_config demo_genesis_state eq_refl eq_refl).
  reflexivity.
Defined.

(** The header returned never keeps the zero placeholder: its state root is
    the hash of the state, or the state root the embedded header already
    had, which then is not the placeholder.  Its other fields come from the
    default block (genesis case) or from the embedded header, unchanged. *)
Lemma computeAnchorCheckpoint_header_stateRoot config anchorState :
  let header := snd (computeAnchorCheckpoint config anchorState) in
  let latest := st_latestBlockHeader anchorState in
  let stateRoot :=
    hashTreeRoot (BeaconStateT (getTypes config (st_slot anchorState))) anchorState in
  (h_stateRoot header = stateRoot \/
   (h_stateRoot header = h_stateRoot latest /\ h_stateRoot latest <> ZERO_HASH /\
    h_slot latest <> GENESIS_SLOT)) /\
  (h_slot latest <> GENESIS_SLOT ->
     h_slot header = h_slot latest /\
     h_proposerIndex header = h_proposerIndex latest /\
     h_parentRoot header = h_parentRoot latest /\
     h_bodyRoot header = h_bodyRoot latest).
Proof.
  cbv zeta. unfold computeAnchorCheckpoint, GENESIS_SLOT, clone.
  destruct (h_slot (st_latestBlockHeader anchorState) =? 0) eqn:Hslot.
  - apply N.eqb_eq in Hslot. cbn [snd]. split; [by left|]. by intros [].
  - apply N.eqb_neq in Hslot. cbn [snd].
    destruct (Root_equals (h_stateRoot (st_latestBlockHeader anchorState)) ZERO_HASH)
      eqn:Hz.
    + split; [by left|]. done.
    + apply Root_equals_false in Hz. split; [by right|]. done.
Qed.

(* ===================================================================== *)
(** ** [initStateFromAnchorState] and [persistAnchorState] *)
(* ===================================================================== *)

(** [initStateFromAnchorState] never throws and returns the state it was
    given.  It logs once, appends the state to the state archive, and
    appends a block to the block archive only for a state at the genesis
    slot, that block being the genesis block of the state.  The state it
    returned is the one [initStateFromDb] loads afterwards. *)
Lemma initStateFromAnchorState_persists config anchorState w :
  let run := initStateFromAnchorState config anchorState w in
  fst run = inr anchorState /\
  db_stateArchive (snd run) = db_stateArchive w ++ [anchorState] /\
  db_blockArchive (snd run)
  = db_blockArchive w
      ++ (if st_slot anchorState =? GENESIS_SLOT
          then [createGenesisBlock config anchorState] else []) /\
  length (db_log (snd run)) = S (length (db_log w)) /\
  fst (initStateFromDb config (snd run)) = inr anchorState.
Proof.
  cbv zeta. unfold initStateFromAnchorState, persistAnchorState.
  assert (Hlast : forall xs, last (xs ++ [anchorState]) = Some anchorState)
    by (intros xs; apply last_snoc).
  destruct (st_slot anchorState =? GENESIS_SLOT);
    unfold bind, logger_info, blockArchive_add, stateArchive_add, modify, ret,
      initStateFromDb, bind, stateArchive_lastValue, gets;
    cbn [fst snd db_stateArchive db_blockArchive db_log];
    rewrite Hlast, ?app_nil_r, length_app; cbn [length fst];
    repeat split; try done; lia.
Qed.

(* ===================================================================== *)
(** ** The voluntary exits of a block *)
(* ===================================================================== *)

(** [getVoluntaryExitsSignatureSets] yields one signature set per voluntary
    exit of the block, in the order of the exits, each of the single kind;
    verifying the sets one by one gives, exit by exit, the answer of
    [verifyVoluntaryExitSignature]. *)
Lemma getVoluntaryExitsSignatureSets_per_exit
    getDomain computeSigningRoot verifySignatureSet state signedBlock :
  let exits := body_voluntaryExits (b_body (sb_message signedBlock)) in
  let sets := getVoluntaryExitsSignatureSets getDomain computeSigningRoot
                state signedBlock in
  length sets = length exits /\
  (forall i : nat,
     sets !! i
     = getVoluntaryExitSignatureSet getDomain computeSigningRoot state <$> exits !! i) /\
  (forall set, set ∈ sets ->
     exists pubkey signingRoot signature,
       set = SignatureSet_single pubkey signingRoot signature) /\
  map verifySignatureSet sets
  = map (verifyVoluntaryExitSignature getDomain computeSigningRoot
           verifySignatureSet state) exits.
Proof.
  cbv zeta. unfold getVoluntaryExitsSignatureSets.
  split; [apply length_map|]. split; [intros i; apply list_lookup_fmap|]. split.
  - intros set Hin. apply list_elem_of_fmap in Hin as (exit & -> & _).
    unfold getVoluntaryExitSignatureSet. eauto.
  - by rewrite map_map.
Qed.

(* ===================================================================== *)
(** ** [persistGenesisResult] and [initStateFromEth1] *)
(* ===================================================================== *)

(** Each of the four writes of [persistGenesisResult] lands in a store of
    its own, and the call does not throw. *)
Lemma persistGenesisResult_run depositTree_hashTreeRoot genesisResult genesisBlock w :
  persistGenesisResult depositTree_hashTreeRoot genesisResult genesisBlock w
  = (inr tt,
     {| gw_db :=
          {| db_stateArchive := db_stateArchive (gw_db w) ++ [gr_state genesisResult];
             db_blockArchive := db_blockArchive (gw_db w) ++ [genesisBlock];
             db_log := db_log (gw_db w) |};
        gw_depositDataRoot := gw_depositDataRoot w ++ gr_depositTree genesisResult;
        gw_eth1Data :=
          <[eb_timestamp (gr_block genesisResult) :=
              genesis_eth1Data depositTree_hashTreeRoot genesisResult]> (gw_eth1Data w);
        gw_info := gw_info w |}).
Proof. reflexivity. Qed.

(** When the wait for genesis yields a result, [initStateFromEth1] returns
    the genesis state of that result, and storage then holds: the state as
    the one [initStateFromDb] loads; as last archived block the genesis block
    of the state, whose state root is the hash of the state under the types
    of the genesis slot; the deposit tree; and, under the timestamp of the
    eth1 block, a record with the size and the root of the deposit tree.
    Two events are logged, the second after the wait. *)
Lemma initStateFromEth1_persists_genesis
    depositTree_hashTreeRoot config genesisResult w :
  let run := initStateFromEth1 depositTree_hashTreeRoot (inr genesisResult) config w in
  let state := gr_state genesisResult in
  let genesisBlock := createGenesisBlock config state in
  fst run = inr state /\
  fst (initStateFromDb config (gw_db (snd run))) = inr state /\
  db_stateArchive (gw_db (snd run)) = db_stateArchive (gw_db w) ++ [state] /\
  db_blockArchive (gw_db (snd run)) = db_blockArchive (gw_db w) ++ [genesisBlock] /\
  b_stateRoot (sb_message genesisBlock)
  = hashTreeRoot (BeaconStateT (getTypes config GENESIS_SLOT)) state /\
  gw_depositDataRoot (snd run) = gw_depositDataRoot w ++ gr_depositTree genesisResult /\
  gw_eth1Data (snd run) !! eb_timestamp (gr_block genesisResult)
  = Some {| ed_block := gr_block genesisResult;
            ed_depositCount := length (gr_depositTree genesisResult);
            ed_depositRoot := depositTree_hashTreeRoot (gr_depositTree genesisResult) |} /\
  (forall t, t <> eb_timestamp (gr_block genesisResult) ->
     gw_eth1Data (snd run) !! t = gw_eth1Data w !! t) /\
  exists logged, gw_info (snd run) = gw_info w ++ [InfoListening; logged].
Proof.
  cbv zeta. unfold initStateFromEth1.
  erewrite bind_inr by reflexivity.
  erewrite bind_inr by reflexivity.
  erewrite bind_inr by reflexivity.
  erewrite bind_inr by apply persistGenesisResult_run.
  unfold ret, genesis_info, modify.
  cbn [fst snd gw_db gw_depositDataRoot gw_eth1Data gw_info
       db_stateArchive db_blockArchive db_log].
  split; [done|]. split.
  { unfold initStateFromDb, bind, stateArchive_lastValue, gets.
    cbn [db_stateArchive]. by rewrite last_snoc. }
  split; [done|]. split; [done|]. split; [done|]. split; [done|].
  split; [apply lookup_insert_eq|]. split.
  - intros t Hne. by rewrite lookup_insert_ne.
  - eexists. by rewrite <- app_assoc.
Qed.

(** When the wait for genesis is aborted, [initStateFromEth1] throws the
    exception of the wait and has persisted nothing: the archives, the
    deposit roots and the eth1 records are as they were, and only the
    first event was logged. *)
Lemma initStateFromEth1_aborted depositTree_hashTreeRoot config e w :
  let run := initStateFromEth1 depositTree_hashTreeRoot (inl e) config w in
  fst run = inl e /\
  gw_db (snd run) = gw_db w /\
  gw_depositDataRoot (snd run) = gw_depositDataRoot w /\
  gw_eth1Data (snd run) = gw_eth1Data w /\
  gw_info (snd run) = gw_info w ++ [InfoListening].
Proof. cbv zeta. unfold initStateFromEth1. by erewrite bind_inr by reflexivity. Qed.

Example initStateFromEth1_example :
  fst (initStateFromDb demo_config
         (gw_db (snd (initStateFromEth1 demo_tree_hash (inr demo_genesis_result)
                        demo_config demo_genesis_world))))
  = inr demo_genesis_state.
Proof. reflexivity. Qed.

(* ===================================================================== *)
(** ** More on [restoreStateCaches] *)
(* ===================================================================== *)

(** The world [restoreStateCaches] leaves behind. *)
Lemma restoreStateCaches_world createEpochContext config state w :
  exists item,
    cw_heap w !! item = None /\
    cw_heap (snd (restoreStateCaches createEpochContext config state w))
    = <[item := {| cs_config := config;
                   cs_epochCtx := createEpochContext config state;
                   cs_state := state |}]> (cw_heap w) /\
    cw_stateCache (snd (restoreStateCaches createEpochContext config state w))
    = <[hashTreeRoot (BeaconStateT (getTypes config (st_slot state))) state := item]>
        (cw_stateCache w) /\
    cw_checkpointStateCache (snd (restoreStateCaches createEpochContext config state w))
    = <[fst (computeAnchorCheckpoint config state) := item]>
        (cw_checkpointStateCache w).
Proof.
  unfold restoreStateCaches.
  destruct (computeAnchorCheckpoint config state) as [checkpoint header].
  cbn [fst].
  exists (fresh (dom (cw_heap w))). split.
  { apply not_elem_of_dom. apply is_fresh. }
  unfold createCachedBeaconState.
  erewrite bind_inr by (unfold alloc_cached; reflexivity).
  erewrite bind_inr; cycle 1.
  { unfold stateCache_add. cbn [cw_heap]. rewrite lookup_insert_eq. reflexivity. }
  done.
Qed.

Lemma caches_closed_empty : caches_closed empty_cache_world.
Proof. split; intros ? l Hl; cbn in Hl; by rewrite lookup_empty in Hl. Qed.

(** [restoreStateCaches] keeps the caches free of dangling references. *)
Lemma restoreStateCaches_keeps_closed createEpochContext config state w :
  caches_closed w ->
  caches_closed (snd (restoreStateCaches createEpochContext config state w)).
Proof.
  intros [Hroots Hcps].
  destruct (restoreStateCaches_world
              createEpochContext config state w)
    as (item & Hfresh & Hheap & Hsc & Hcc).
  split.
  - intros r l. rewrite Hheap, Hsc.
    destruct (decide (hashTreeRoot (BeaconStateT (getTypes config (st_slot state)))
                                   state = r)) as [->|Hne].
    + rewrite lookup_insert_eq. intros [= <-]. rewrite lookup_insert_eq. eauto.
    + rewrite lookup_insert_ne by done. intros Hl.
      destruct (Hroots _ _ Hl) as [c Hc]. exists c.
      rewrite lookup_insert_ne; [done|]. intros <-. congruence.
  - intros c l. rewrite Hheap, Hcc.
    destruct (decide (fst (computeAnchorCheckpoint config state) = c)) as [->|Hne].
    + rewrite lookup_insert_eq. intros [= <-]. rewrite lookup_insert_eq. eauto.
    + rewrite lookup_insert_ne by done. intros Hl.
      destruct (Hcps _ _ Hl) as [c' Hc]. exists c'.
      rewrite lookup_insert_ne; [done|]. intros <-. congruence.
Qed.

(** [restoreStateCaches] disturbs nothing that was cached before: when the
    caches hold references to existing objects only, every state root other
    than the one of the restored state, and every checkpoint other than its
    anchor checkpoint, still leads to the cached state it led to. *)
Lemma restoreStateCaches_frame createEpochContext config state w :
  caches_closed w ->
  let w' := snd (restoreStateCaches createEpochContext config state w) in
  (forall r,
     r <> hashTreeRoot (BeaconStateT (getTypes config (st_slot state))) state ->
     stateCache_get w' r = stateCache_get w r) /\
  (forall c,
     c <> fst (computeAnchorCheckpoint config state) ->
     checkpointStateCache_get w' c = checkpointStateCache_get w c).
Proof.
  intros [Hroots Hcps] w'. subst w'.
  destruct (restoreStateCaches_world
              createEpochContext config state w)
    as (item & Hfresh & Hheap & Hsc & Hcc).
  unfold stateCache_get, checkpointStateCache_get.
  rewrite Hheap, Hsc, Hcc. split.
  - intros r Hne. rewrite lookup_insert_ne by done.
    destruct (cw_stateCache w !! r) as [l|] eqn:Hl; [|done]. cbn.
    apply lookup_insert_ne. intros <-.
    destruct (Hroots _ _ Hl) as [? Hsome]. congruence.
  - intros c Hne. rewrite lookup_insert_ne by done.
    destruct (cw_checkpointStateCache w !! c) as [l|] eqn:Hl; [|done]. cbn.
    apply lookup_insert_ne. intros <-.
    destruct (Hcps _ _ Hl) as [? Hsome]. congruence.
Qed.

Lemma restoreStateCaches_frame_witness :
  stateCache_get
    (snd (restoreStateCaches demo_createEpochContext wf_config wf_genesis_state
            (snd (restoreStateCaches demo_createEpochContext wf_config wf_state
                    empty_cache_world))))
    (wf_state_hash wf_state)
  = Some (wf_cached wf_state) /\
  checkpointStateCache_get
    (snd (restoreStateCaches demo_createEpochContext wf_config wf_genesis_state
            (snd (restoreStateCaches demo_createEpochContext wf_config wf_state
                    empty_cache_world))))
    (fst (computeAnchorCheckpoint wf_config wf_state))
  = Some (wf_cached wf_state).
Proof.
  destruct (restoreStateCaches_frame demo_createEpochContext wf_config
              wf_genesis_state
              (snd (restoreStateCaches demo_createEpochContext wf_config wf_state
                      empty_cache_world))
              (restoreStateCaches_keeps_closed demo_createEpochContext wf_config
                 wf_state empty_cache_world caches_closed_empty))
    as [Hroot Hcp].
  split.
  - rewrite Hroot by (vm_compute; discriminate). vm_compute. reflexivity.
  - rewrite Hcp by (vm_compute; discriminate). vm_compute. reflexivity.
Defined.
